(** * Camera app: the save-image route, the expression overlay and the
      two webcam components

    A shallow embedding of
    - the [POST] handler of [/api/save-image] (module [SaveImage]),
    - the per-frame drawing of [detectExpressions] (module [Overlay]),
    - the [FaceDetection] component as an event-driven transition system
      (module [FaceDetection]),
    - the stream handling of [WebcamCapture] (module [WebcamCapture]),
    followed by the properties proved about them. *)

From Stdlib Require Import ZArith NArith List String Ascii Bool Lia Floats.
From Stdlib Require Import Strings.Byte DecimalString Uint63.
From Stdlib Require Import Sorting.Permutation.
Import ListNotations.

Set Warnings "-inexact-float".

Open Scope string_scope.

(** ** Exceptions

    A computation either returns a value or throws; what is thrown is
    never inspected by the code ([catch (error)] only logs it). *)

Inductive result (A : Type) : Type :=
| Ok (a : A)
| Throw.

Arguments Ok {A} a.
Arguments Throw {A}.

Definition bind {A B : Type} (m : result A) (k : A -> result B) : result B :=
  match m with
  | Ok a => k a
  | Throw => Throw
  end.

Notation "x <- m ;; k" := (bind m (fun x => k))
  (at level 61, m at next level, right associativity).

(** ** Regular expressions

    The fragment used by the two patterns of the code, with the usual
    language semantics. A pattern anchored by [^] and [$] matches a
    string when the whole string is in its language. *)

Inductive regex : Type :=
| Chr (p : ascii -> bool)            (* a character class *)
| Lit (s : string)                   (* a literal *)
| Cat (r1 r2 : regex)                (* r1 r2 *)
| Rep (n : nat) (r : regex)          (* r{n} *)
| Plus (r : regex).                  (* r+ *)

Inductive matches : regex -> string -> Prop :=
| M_Chr p c : p c = true -> matches (Chr p) (String c "")
| M_Lit s : matches (Lit s) s
| M_Cat r1 r2 s1 s2 :
    matches r1 s1 -> matches r2 s2 -> matches (Cat r1 r2) (s1 ++ s2)
| M_Rep0 r : matches (Rep 0 r) ""
| M_RepS n r s1 s2 :
    matches r s1 -> matches (Rep n r) s2 -> matches (Rep (S n) r) (s1 ++ s2)
| M_Plus1 r s : matches r s -> matches (Plus r) s
| M_PlusS r s1 s2 :
    matches r s1 -> matches (Plus r) s2 -> matches (Plus r) (s1 ++ s2).

Definition in_range (lo hi : nat) (c : ascii) : bool :=
  let n := nat_of_ascii c in (lo <=? n)%nat && (n <=? hi)%nat.

(** [\w]: letters, digits and the underscore. *)
Definition is_word_char (c : ascii) : bool :=
  in_range 65 90 c || in_range 97 122 c || in_range 48 57 c
  || (nat_of_ascii c =? 95)%nat.

(** [[0-9a-f]] *)
Definition is_lower_hex (c : ascii) : bool :=
  in_range 48 57 c || in_range 97 102 c.

(** [^[0-9a-f]{32}\.png$] *)
Definition fileName_regex : regex :=
  Cat (Rep 32 (Chr is_lower_hex)) (Lit ".png").

(** [^data:image\/\w+;base64,] *)
Definition data_url_prefix_regex : regex :=
  Cat (Lit "data:image/") (Cat (Plus (Chr is_word_char)) (Lit ";base64,")).

(** ** The route handler [POST] of [/api/save-image] *)

Module SaveImage.

(** A parsed JSON value, as [req.json()] produces it. The entries of an
    object are its own properties, one per key. Strings are sequences of
    8-bit characters, which is all a data URI needs. *)
#[warnings="-register-all"]
Inductive json : Type :=
| JNull
| JBool (b : bool)
| JNum (x : float)
| JStr (s : string)
| JArr (l : list json)
| JObj (kvs : list (string * json)).

(** [NextResponse.json(body, { status })]; the status is 200 when none is
    given. *)
Inductive payload : Type :=
| Saved (fileName : string)          (* { success: true, fileName } *)
| Failed (error : string).           (* { success: false, error } *)

Record response : Type := { body : payload; status : nat }.

(** The files on disk: path and content, the latest write first. *)
Definition files : Type := list (string * list byte).

(** [await req.json()]: rejects when the body is not valid JSON, which
    the request carries as [None]. *)
Definition req_json (raw : option json) : result json :=
  match raw with
  | Some data => Ok data
  | None => Throw
  end.

Fixpoint property (k : string) (kvs : list (string * json)) : option json :=
  match kvs with
  | [] => None
  | (k', v) :: rest => if String.eqb k k' then Some v else property k rest
  end.

(** [const { image } = data;]: destructuring [null] throws; a value
    without the property gives [undefined], here [None]. *)
Definition destructure_image (data : json) : result (option json) :=
  match data with
  | JNull => Throw
  | JObj kvs => Ok (property "image" kvs)
  | _ => Ok None
  end.

(** [crypto.randomBytes(16).toString("hex")] *)
Definition hex_digit (n : N) : ascii :=
  if (n <? 10)%N then ascii_of_N (48 + n) else ascii_of_N (87 + n).

Fixpoint toHex (bytes : list byte) : string :=
  match bytes with
  | [] => ""
  | b :: rest =>
      let n := Byte.to_N b in
      String (hex_digit (n / 16)) (String (hex_digit (n mod 16)) (toHex rest))
  end.

(** [s] without the literal prefix [p], when it has it. *)
Fixpoint strip_literal (p s : string) : option string :=
  match p, s with
  | EmptyString, _ => Some s
  | String a p', String b s' =>
      if Ascii.eqb a b then strip_literal p' s' else None
  | String _ _, EmptyString => None
  end.

(** [s] after its longest run of [\w] characters. *)
Fixpoint skip_word (s : string) : string :=
  match s with
  | String c s' => if is_word_char c then skip_word s' else s
  | EmptyString => s
  end.

(** [image.replace(/^data:image\/\w+;base64,/, "")] on a string: the
    pattern is anchored, so the only candidate match starts at index 0;
    [\w+] takes the longest run of word characters, which has to be
    nonempty and followed by [;base64,] (backing off inside the run
    leaves a word character where [;] is wanted). Without a match the
    string is returned as it is. *)
Definition replace_data_url_prefix (image : string) : string :=
  match strip_literal "data:image/" image with
  | Some rest =>
      match rest with
      | String c _ =>
          if is_word_char c then
            match strip_literal ";base64," (skip_word rest) with
            | Some base64Data => base64Data
            | None => image
            end
          else image
      | EmptyString => image
      end
  | None => image
  end.

(** [image.replace(...)] on whatever [image] is: only a string has a
    [replace] method; [undefined] and [null] throw on the property
    access, any other JSON value throws on the call. *)
Definition image_replace (image : option json) : result string :=
  match image with
  | Some (JStr s) => Ok (replace_data_url_prefix s)
  | _ => Throw
  end.

(** [Buffer.from(base64Data, "base64")]. Node decodes leniently and never
    throws: characters outside the alphabet (standard or URL-safe) are
    skipped, the first [=] ends the input, and a trailing group of two or
    three characters gives one or two bytes. *)
Definition unbase64 (c : ascii) : option N :=
  let n := N_of_ascii c in
  if in_range 65 90 c then Some (n - 65)%N
  else if in_range 97 122 c then Some (n - 71)%N
  else if in_range 48 57 c then Some (n + 4)%N
  else if (n =? 43)%N || (n =? 45)%N then Some 62%N        (* + - *)
  else if (n =? 47)%N || (n =? 95)%N then Some 63%N        (* / _ *)
  else None.

Fixpoint sextets (s : string) : list N :=
  match s with
  | EmptyString => []
  | String c s' =>
      if (N_of_ascii c =? 61)%N then []                    (* = *)
      else match unbase64 c with
           | Some v => v :: sextets s'
           | None => sextets s'
           end
  end.

Definition octet (n : N) : byte := byte_of_ascii (ascii_of_N (n mod 256)).

Fixpoint octets (l : list N) : list byte :=
  match l with
  | a :: b :: c :: d :: rest =>
      octet (a * 4 + b / 16) :: octet (b * 16 + c / 4) :: octet (c * 64 + d)
        :: octets rest
  | [a; b; c] => [octet (a * 4 + b / 16); octet (b * 16 + c / 4)]
  | [a; b] => [octet (a * 4 + b / 16)]
  | _ => []
  end.

Definition Buffer_from_base64 (s : string) : list byte := octets (sextets s).

(** [join(a, b)] of [path], for segments that need no normalising. *)
Definition join (a b : string) : string := a ++ "/" ++ b.

Section Handler.

(** [process.cwd()] *)
Variable cwd : string.

(** Whether the file system takes a write to a path; when it does not
    (missing directory, no permission, full disk) the promise of
    [writeFile] rejects. *)
Variable writable : string -> bool.

(** How far a write that is rejected got. [writeFile] opens the path
    with create-and-truncate and then writes: [None] when the path could
    not be opened, so that nothing changed; [Some n] when the file was
    created or emptied and [n] bytes of the data went in before the
    failure. The handler writes to the final path and removes nothing
    afterwards. *)
Variable partial : string -> option nat.

(** [writeFile(path, data)]: whether the promise fulfils, and the files
    afterwards. *)
Definition writeFile (fs : files) (path : string) (data : list byte)
  : result unit * files :=
  if writable path then (Ok tt, (path, data) :: fs)
  else match partial path with
       | Some n => (Throw, (path, firstn n data) :: fs)
       | None => (Throw, fs)
       end.

(** [join(process.cwd(), "public", "captured-photos")] *)
Definition publicPath : string := join (join cwd "public") "captured-photos".

(** The [try] block up to the write: the file name and the buffer.
    [random] is what [crypto.randomBytes(16)] returns. Nothing here
    touches the files. *)
Definition POST_prepare (random : list byte) (raw : option json)
  : result (string * list byte) :=
  data <- req_json raw ;;
  image <- destructure_image data ;;
  let randomName := toHex random in
  let fileName := randomName ++ ".png" in
  base64Data <- image_replace image ;;
  let buffer := Buffer_from_base64 base64Data in
  Ok (fileName, buffer).

(** The [try] block: what it returns or that it threw, and the files
    afterwards. *)
Definition POST_try (fs : files) (random : list byte) (raw : option json)
  : result string * files :=
  match POST_prepare random raw with
  | Ok (fileName, buffer) =>
      let (written, fs') := writeFile fs (join publicPath fileName) buffer in
      (_ <- written ;; Ok fileName, fs')
  | Throw => (Throw, fs)
  end.

(** The handler: the response and the files afterwards. *)
Definition POST (fs : files) (random : list byte) (raw : option json)
  : response * files :=
  match POST_try fs random raw with
  | (Ok fileName, fs') => ({| body := Saved fileName; status := 200 |}, fs')
  | (Throw, fs') =>
      ({| body := Failed "Failed to save image"; status := 500 |}, fs')
  end.

End Handler.

(** A well-formed PNG data URI: the PNG prefix and a base64 payload. *)
Definition is_base64_char (c : ascii) : bool :=
  in_range 65 90 c || in_range 97 122 c || in_range 48 57 c
  || (N_of_ascii c =? 43)%N || (N_of_ascii c =? 47)%N || (N_of_ascii c =? 61)%N.

Fixpoint all_chars (p : ascii -> bool) (s : string) : bool :=
  match s with
  | EmptyString => true
  | String c s' => p c && all_chars p s'
  end.

Definition png_data_uri (image : string) : Prop :=
  exists base64Data,
    image = "data:image/png;base64," ++ base64Data
    /\ all_chars is_base64_char base64Data = true.

(** A body without a usable [image] string: not JSON at all, or JSON
    whose [image] is missing or is not a string. *)
Definition malformed (raw : option json) : Prop :=
  match raw with
  | None => True
  | Some (JObj kvs) =>
      match property "image" kvs with
      | Some (JStr _) => False
      | _ => True
      end
  | Some _ => True
  end.

(** The one response of the [catch] block. *)
Definition failure : response :=
  {| body := Failed "Failed to save image"; status := 500 |}.

End SaveImage.

(** ** The per-frame drawing of [detectExpressions] *)

Module Overlay.

(** A JavaScript number is a binary64 float. [a > b] is false as soon as
    one side is NaN. *)
Definition gt (a b : float) : bool := PrimFloat.ltb b a.

Definition isNaN (x : float) : bool := negb (PrimFloat.eqb x x).

Record Box : Type := { left : float; top : float; boxWidth : float; boxHeight : float }.

Record Dimensions : Type := { dimWidth : Z; dimHeight : Z }.

(** What [detectSingleFace(...).withFaceExpressions()] resolves to when
    it finds a face ([undefined], here [None], when it does not). The
    expressions are listed as [Object.entries] enumerates them. *)
Record Detection : Type :=
  { detection : Box; expressions : list (string * float) }.

Record Video : Type := { videoWidth : Z; videoHeight : Z }.

(** What has been drawn on the canvas since it was last cleared, the
    oldest first. Font, colours and line width are not recorded. *)
Inductive Drawing : Type :=
| DetectionBox (b : Box)                       (* faceapi.draw.drawDetections *)
| StrokeText (text : string) (x y : float)     (* context.strokeText *)
| FillText (text : string) (x y : float).      (* context.fillText *)

Record Canvas : Type :=
  { width : Z;
    height : Z;
    context2d : bool;                 (* getContext("2d") is not null *)
    drawn : list Drawing }.

(** [context.clearRect(0, 0, canvas.width, canvas.height)] *)
Definition clearRect (canvas : Canvas) : Canvas :=
  {| width := width canvas; height := height canvas;
     context2d := context2d canvas; drawn := [] |}.

Definition draw (d : Drawing) (canvas : Canvas) : Canvas :=
  {| width := width canvas; height := height canvas;
     context2d := context2d canvas; drawn := drawn canvas ++ [d] |}.

(** [faceapi.matchDimensions(canvas, video, true)]: the canvas takes the
    dimensions of the video, which are returned. Assigning a dimension
    resets the bitmap of a canvas. *)
Definition matchDimensions (canvas : Canvas) (video : Video)
  : Canvas * Dimensions :=
  ({| width := videoWidth video; height := videoHeight video;
      context2d := context2d canvas; drawn := [] |},
   {| dimWidth := videoWidth video; dimHeight := videoHeight video |}).

(** [array.reduce(f)] without an initial value: a TypeError on the empty
    array, otherwise a fold from the first element over the others. *)
Definition reduce {A : Type} (f : A -> A -> A) (l : list A) : result A :=
  match l with
  | [] => Throw
  | a :: rest => Ok (fold_left f rest a)
  end.

(** [(a, b) => a[1] > b[1] ? a : b] *)
Definition moreConfident (a b : string * float) : string * float :=
  if gt (snd a) (snd b) then a else b.

Definition dominantExpression (expressions : list (string * float))
  : result (string * float) :=
  reduce moreConfident expressions.

(** [Math.round(x)] of a finite [x], as an integer: the integer nearest
    to [x], the larger one of two equally near. A finite float is
    [m * 2^e], negated when [s]. *)
Definition round_finite (s : bool) (m : positive) (e : Z) : Z :=
  let sm := if s then Z.neg m else Z.pos m in
  if (0 <=? e)%Z then sm * 2 ^ e
  else (2 * sm + 2 ^ (- e)) / 2 ^ (- e + 1).

Definition decimal (n : Z) : string :=
  DecimalString.NilZero.string_of_int (Z.to_int n).

(** The string that a template literal makes of [Math.round(x)]. Zero of
    either sign prints as [0]. An integer of 22 digits or more prints in
    exponent notation in JavaScript and positionally here; a confidence
    times 100 is far from that. *)
Definition roundedToString (x : float) : string :=
  match Prim2SF x with
  | S754_nan => "NaN"
  | S754_infinity false => "Infinity"
  | S754_infinity true => "-Infinity"
  | S754_zero _ => "0"
  | S754_finite s m e => decimal (round_finite s m e)
  end.

(** [`${dominantExpression[0]}: ${Math.round(dominantExpression[1] * 100)}%`] *)
Definition expressionText (dominant : string * float) : string :=
  fst dominant ++ ": " ++ roundedToString (snd dominant * 100)%float ++ "%".

(** A canvas dimension as a number. *)
Definition toNumber (n : Z) : float := PrimFloat.of_uint63 (Uint63.of_Z n).

(** How the continuation of [detectExpressions] ends. *)
Inductive Completion : Type :=
| Scheduled       (* reached [requestAnimationFrame(detectExpressions)] *)
| Returned        (* [if (!context) return;] *)
| Threw.          (* an exception left the function *)

Section Render.

(** [faceapi.resizeResults(detection, dims)], of the library. *)
Variable resizeResults : Detection -> Dimensions -> Box.

(** [context.measureText(text).width] in the font [24px Arial], of the
    browser. *)
Variable measureText : string -> float.

(** The body of [detectExpressions] after the [await]: from
    [if (detection)] to the end. *)
Definition render (canvas : Canvas) (video : Video) (found : option Detection)
  : Canvas * Completion :=
  match found with
  | Some det =>
      if negb (context2d canvas) then (canvas, Returned)
      else
        let canvas := clearRect canvas in
        let (canvas, dims) := matchDimensions canvas video in
        let resizedDetection := resizeResults det dims in
        let canvas := draw (DetectionBox resizedDetection) canvas in
        match dominantExpression (expressions det) with
        | Throw => (canvas, Threw)
        | Ok dominant =>
            let text := expressionText dominant in
            let textWidth := measureText text in
            let x := ((toNumber (width canvas) - textWidth) / 2)%float in
            let canvas := draw (StrokeText text x 50) canvas in
            let canvas := draw (FillText text x 50) canvas in
            (canvas, Scheduled)
        end
  | None => (canvas, Scheduled)
  end.

End Render.

(** The two kinds of drawing: text, and the box of a detection. *)
Definition isText (d : Drawing) : bool :=
  match d with
  | StrokeText _ _ _ | FillText _ _ _ => true
  | DetectionBox _ => false
  end.

Definition isBox (d : Drawing) : bool :=
  match d with
  | DetectionBox _ => true
  | _ => false
  end.

(** The place of a float that is not NaN in the order of the floats:
    triples compared lexicographically, from minus infinity over the
    negative floats, zero and the positive floats to infinity. Used to
    reason about [gt]. *)
Definition rank (f : spec_float) : Z * Z * Z :=
  match f with
  | S754_infinity true => (-2, 0, 0)
  | S754_finite true m e => (-1, - e, Z.neg m)
  | S754_zero _ | S754_nan => (0, 0, 0)
  | S754_finite false m e => (1, e, Z.pos m)
  | S754_infinity false => (2, 0, 0)
  end%Z.

Definition rank_lt (a b : Z * Z * Z) : Prop :=
  let '(a1, a2, a3) := a in
  let '(b1, b2, b3) := b in
  (a1 < b1 \/ (a1 = b1 /\ (a2 < b2 \/ (a2 = b2 /\ a3 < b3))))%Z.

(** A float that is a number: zero or [m * 2^e]. *)
Definition isFinite (x : float) : bool :=
  match Prim2SF x with
  | S754_zero _ | S754_finite _ _ _ => true
  | S754_infinity _ | S754_nan => false
  end.

(** The value of a finite float [m * 2^e], negated when [s], in exact
    arithmetic: the fraction [numerator / 2^scale]. Used to say what
    [Math.round] and the number of a canvas width are. *)
Definition scale (e : Z) : Z := Z.max 0 (- e).

Definition numerator (s : bool) (m : positive) (e : Z) : Z :=
  (if s then Z.neg m else Z.pos m) * 2 ^ (e + scale e).

(** The float is the integer [n]. *)
Definition exactly (n : Z) (x : spec_float) : Prop :=
  match x with
  | S754_zero _ => n = 0%Z
  | S754_finite s m e => numerator s m e = (n * 2 ^ scale e)%Z
  | S754_infinity _ | S754_nan => False
  end.

(** [n] is the integer nearest to the float [x], the larger one of two
    equally near: [x - 1/2 < n <= x + 1/2], with both sides multiplied
    by [2 * 2^scale]. *)
Definition nearest (n : Z) (x : spec_float) : Prop :=
  match x with
  | S754_zero _ => n = 0%Z
  | S754_finite s m e =>
      (2 * numerator s m e - 2 ^ scale e < 2 * n * 2 ^ scale e
       <= 2 * numerator s m e + 2 ^ scale e)%Z
  | S754_infinity _ | S754_nan => False
  end.

End Overlay.

(** ** The component [FaceDetection]

    The component is run by the browser: promises settle, the video
    starts playing, animation frames fire, the view is unmounted. Each of
    these is an event, and a step runs the JavaScript that the event
    triggers to its end (to the next [await], or to the end of the
    effects of the render it causes). *)

Module FaceDetection.

Import Overlay.

Definition MediaStream : Type := nat.

(** What a [detectExpressions] closure sees of the render that created
    it: the run of the detection effect it belongs to (each run has its
    own [animationFrameId] variable) and [isVideoPlaying]. *)
Record Closure : Type := { effectRun : nat; sawVideoPlaying : bool }.

Record State : Type :=
  { (* useState *)
    modelsLoaded : bool;
    stream : option MediaStream;
    isVideoPlaying : bool;
    (* the DOM: the refs hold the elements while mounted, null after *)
    mounted : bool;
    canvas : Canvas;
    video : Video;                     (* with the dimensions of its stream,
                                          which are taken to stay as they are *)
    srcObject : option MediaStream;
    liveTracks : list MediaStream;     (* streams whose tracks run *)
    (* promises that have not settled *)
    loading : bool;                    (* Promise.all([...]) of loadModels *)
    requestingMedia : nat;             (* getUserMedia calls *)
    inferences : list Closure;         (* detectSingleFace calls awaited *)
    (* requestAnimationFrame callbacks not yet run, with their handles *)
    frames : list (nat * Closure);
    nextHandle : nat;
    (* the current run of the detection effect and its variable *)
    currentRun : nat;
    animationFrameId : option nat }.

Definition set_modelsLoaded (v : bool) (s : State) : State :=
  {| modelsLoaded := v; stream := stream s; isVideoPlaying := isVideoPlaying s;
     mounted := mounted s; canvas := canvas s; video := video s;
     srcObject := srcObject s; liveTracks := liveTracks s; loading := loading s;
     requestingMedia := requestingMedia s; inferences := inferences s;
     frames := frames s; nextHandle := nextHandle s; currentRun := currentRun s;
     animationFrameId := animationFrameId s |}.

Definition set_stream (v : option MediaStream) (s : State) : State :=
  {| modelsLoaded := modelsLoaded s; stream := v; isVideoPlaying := isVideoPlaying s;
     mounted := mounted s; canvas := canvas s; video := video s;
     srcObject := srcObject s; liveTracks := liveTracks s; loading := loading s;
     requestingMedia := requestingMedia s; inferences := inferences s;
     frames := frames s; nextHandle := nextHandle s; currentRun := currentRun s;
     animationFrameId := animationFrameId s |}.

Definition set_isVideoPlaying (v : bool) (s : State) : State :=
  {| modelsLoaded := modelsLoaded s; stream := stream s; isVideoPlaying := v;
     mounted := mounted s; canvas := canvas s; video := video s;
     srcObject := srcObject s; liveTracks := liveTracks s; loading := loading s;
     requestingMedia := requestingMedia s; inferences := inferences s;
     frames := frames s; nextHandle := nextHandle s; currentRun := currentRun s;
     animationFrameId := animationFrameId s |}.

Definition set_mounted (v : bool) (s : State) : State :=
  {| modelsLoaded := modelsLoaded s; stream := stream s; isVideoPlaying := isVideoPlaying s;
     mounted := v; canvas := canvas s; video := video s;
     srcObject := srcObject s; liveTracks := liveTracks s; loading := loading s;
     requestingMedia := requestingMedia s; inferences := inferences s;
     frames := frames s; nextHandle := nextHandle s; currentRun := currentRun s;
     animationFrameId := animationFrameId s |}.

Definition set_canvas (v : Canvas) (s : State) : State :=
  {| modelsLoaded := modelsLoaded s; stream := stream s; isVideoPlaying := isVideoPlaying s;
     mounted := mounted s; canvas := v; video := video s;
     srcObject := srcObject s; liveTracks := liveTracks s; loading := loading s;
     requestingMedia := requestingMedia s; inferences := inferences s;
     frames := frames s; nextHandle := nextHandle s; currentRun := currentRun s;
     animationFrameId := animationFrameId s |}.

Definition set_srcObject (v : option MediaStream) (s : State) : State :=
  {| modelsLoaded := modelsLoaded s; stream := stream s; isVideoPlaying := isVideoPlaying s;
     mounted := mounted s; canvas := canvas s; video := video s;
     srcObject := v; liveTracks := liveTracks s; loading := loading s;
     requestingMedia := requestingMedia s; inferences := inferences s;
     frames := frames s; nextHandle := nextHandle s; currentRun := currentRun s;
     animationFrameId := animationFrameId s |}.

Definition set_liveTracks (v : list MediaStream) (s : State) : State :=
  {| modelsLoaded := modelsLoaded s; stream := stream s; isVideoPlaying := isVideoPlaying s;
     mounted := mounted s; canvas := canvas s; video := video s;
     srcObject := srcObject s; liveTracks := v; loading := loading s;
     requestingMedia := requestingMedia s; inferences := inferences s;
     frames := frames s; nextHandle := nextHandle s; currentRun := currentRun s;
     animationFrameId := animationFrameId s |}.

Definition set_loading (v : bool) (s : State) : State :=
  {| modelsLoaded := modelsLoaded s; stream := stream s; isVideoPlaying := isVideoPlaying s;
     mounted := mounted s; canvas := canvas s; video := video s;
     srcObject := srcObject s; liveTracks := liveTracks s; loading := v;
     requestingMedia := requestingMedia s; inferences := inferences s;
     frames := frames s; nextHandle := nextHandle s; currentRun := currentRun s;
     animationFrameId := animationFrameId s |}.

Definition set_requestingMedia (v : nat) (s : State) : State :=
  {| modelsLoaded := modelsLoaded s; stream := stream s; isVideoPlaying := isVideoPlaying s;
     mounted := mounted s; canvas := canvas s; video := video s;
     srcObject := srcObject s; liveTracks := liveTracks s; loading := loading s;
     requestingMedia := v; inferences := inferences s;
     frames := frames s; nextHandle := nextHandle s; currentRun := currentRun s;
     animationFrameId := animationFrameId s |}.

Definition set_inferences (v : list Closure) (s : State) : State :=
  {| modelsLoaded := modelsLoaded s; stream := stream s; isVideoPlaying := isVideoPlaying s;
     mounted := mounted s; canvas := canvas s; video := video s;
     srcObject := srcObject s; liveTracks := liveTracks s; loading := loading s;
     requestingMedia := requestingMedia s; inferences := v;
     frames := frames s; nextHandle := nextHandle s; currentRun := currentRun s;
     animationFrameId := animationFrameId s |}.

Definition set_frames (v : list (nat * Closure)) (s : State) : State :=
  {| modelsLoaded := modelsLoaded s; stream := stream s; isVideoPlaying := isVideoPlaying s;
     mounted := mounted s; canvas := canvas s; video := video s;
     srcObject := srcObject s; liveTracks := liveTracks s; loading := loading s;
     requestingMedia := requestingMedia s; inferences := inferences s;
     frames := v; nextHandle := nextHandle s; currentRun := currentRun s;
     animationFrameId := animationFrameId s |}.

Definition set_nextHandle (v : nat) (s : State) : State :=
  {| modelsLoaded := modelsLoaded s; stream := stream s; isVideoPlaying := isVideoPlaying s;
     mounted := mounted s; canvas := canvas s; video := video s;
     srcObject := srcObject s; liveTracks := liveTracks s; loading := loading s;
     requestingMedia := requestingMedia s; inferences := inferences s;
     frames := frames s; nextHandle := v; currentRun := currentRun s;
     animationFrameId := animationFrameId s |}.

Definition set_currentRun (v : nat) (s : State) : State :=
  {| modelsLoaded := modelsLoaded s; stream := stream s; isVideoPlaying := isVideoPlaying s;
     mounted := mounted s; canvas := canvas s; video := video s;
     srcObject := srcObject s; liveTracks := liveTracks s; loading := loading s;
     requestingMedia := requestingMedia s; inferences := inferences s;
     frames := frames s; nextHandle := nextHandle s; currentRun := v;
     animationFrameId := animationFrameId s |}.

Definition set_animationFrameId (v : option nat) (s : State) : State :=
  {| modelsLoaded := modelsLoaded s; stream := stream s; isVideoPlaying := isVideoPlaying s;
     mounted := mounted s; canvas := canvas s; video := video s;
     srcObject := srcObject s; liveTracks := liveTracks s; loading := loading s;
     requestingMedia := requestingMedia s; inferences := inferences s;
     frames := frames s; nextHandle := nextHandle s; currentRun := currentRun s;
     animationFrameId := v |}.

(** What the browser does to the component. *)
Inductive Event : Type :=
| ModelsSettled (tinyFaceDetector faceExpressionNet : bool)
    (* both [loadFromUri] promises settled; [true] for fulfilled *)
| MediaSettled (granted : option MediaStream)
    (* a [getUserMedia] promise settled; [None] for rejected *)
| VideoPlay
    (* the [play] event of the video element *)
| InferenceSettled (i : nat) (found : option Detection)
    (* the [i]-th awaited inference fulfilled *)
| InferenceFailed (i : nat)
    (* the [i]-th awaited inference rejected *)
| AnimationFrame
    (* the browser runs the oldest pending animation-frame callback *)
| Unmount.

(** [stream.getTracks().forEach((track) => track.stop())] *)
Definition stopTracks (st : MediaStream) (s : State) : State :=
  set_liveTracks (filter (fun st' => negb (st' =? st)%nat) (liveTracks s)) s.

Definition cancelAnimationFrame (h : nat) (s : State) : State :=
  set_frames (filter (fun f => negb (fst f =? h)%nat) (frames s)) s.

Fixpoint remove_nth {A : Type} (i : nat) (l : list A) : list A :=
  match i, l with
  | _, [] => []
  | O, _ :: rest => rest
  | S i', a :: rest => a :: remove_nth i' rest
  end.

(** [videoRef.current?.videoWidth || 640] *)
Definition orElse (n fallback : Z) : Z := if (n =? 0)%Z then fallback else n.

Section Component.

Variable resizeResults : Detection -> Dimensions -> Box.
Variable measureText : string -> float.

(** [useState<MediaStream | null>(null)]: the [stream] of the first
    render, the one the effects of that render close over. *)
Definition firstRenderStream : option MediaStream := None.

(** [detectExpressions] up to its [await]. *)
Definition detectExpressions (c : Closure) (s : State) : State :=
  if negb (mounted s)                  (* !videoRef.current || !canvasRef.current *)
     || negb (sawVideoPlaying c)       (* || !isVideoPlaying *)
  then s
  else set_inferences (inferences s ++ [c]) s.

(** [animationFrameId = requestAnimationFrame(detectExpressions)]: the
    assignment is to the variable of the closure's own effect run,
    which is the current one only while that run has not been cleaned
    up and replaced. *)
Definition requestAnimationFrame (c : Closure) (s : State) : State :=
  let h := nextHandle s in
  let s := set_frames (frames s ++ [(h, c)]) s in
  let s := set_nextHandle (S h) s in
  if (effectRun c =? currentRun s)%nat
  then set_animationFrameId (Some h) s
  else s.

(** [detectExpressions] from its [await] on. [video] and [canvas] are
    the elements read before the [await]. *)
Definition resume (c : Closure) (found : option Detection) (s : State) : State :=
  let (canvas', completion) :=
    render resizeResults measureText (canvas s) (video s) found in
  let s := set_canvas canvas' s in
  match completion with
  | Scheduled => requestAnimationFrame c s
  | Returned | Threw => s
  end.

(** The cleanup of the detection effect. *)
Definition cleanupDetection (s : State) : State :=
  match animationFrameId s with
  | Some h => if (h =? 0)%nat then s else cancelAnimationFrame h s
  | None => s
  end.

(** The detection effect, dependencies [[modelsLoaded, isVideoPlaying]]:
    the cleanup of the previous run, then the body with a fresh
    [animationFrameId]. *)
Definition detectionEffect (s : State) : State :=
  let s := cleanupDetection s in
  let s := set_animationFrameId None (set_currentRun (S (currentRun s)) s) in
  if modelsLoaded s && isVideoPlaying s
  then detectExpressions
         {| effectRun := currentRun s; sawVideoPlaying := isVideoPlaying s |} s
  else s.

(** The webcam effect, dependencies [[modelsLoaded]]: [startVideo] up
    to its [await]. *)
Definition webcamEffect (s : State) : State :=
  if modelsLoaded s
  then set_requestingMedia (S (requestingMedia s)) s
  else s.

(** [setModelsLoaded(true)]: nothing on an unmounted component and
    nothing when the state is [true] already; otherwise a render and
    the effects that depend on [modelsLoaded]. *)
Definition setModelsLoaded_true (s : State) : State :=
  if negb (mounted s) || modelsLoaded s then s
  else detectionEffect (webcamEffect (set_modelsLoaded true s)).

(** [setIsVideoPlaying(true)] *)
Definition setIsVideoPlaying_true (s : State) : State :=
  if negb (mounted s) || isVideoPlaying s then s
  else detectionEffect (set_isVideoPlaying true s).

(** [handleVideoPlay]; the state update takes effect after the
    handler. *)
Definition handleVideoPlay (s : State) : State :=
  let resized :=
    {| width := orElse (videoWidth (video s)) 640;
       height := orElse (videoHeight (video s)) 480;
       context2d := context2d (canvas s);
       drawn := [] |} in
  setIsVideoPlaying_true (set_canvas resized s).

(** The cleanup of the first effect, dependencies [[]]: it never runs
    again, so its [stream] is the one of the first render. *)
Definition cleanupModels (s : State) : State :=
  match firstRenderStream with
  | Some st => stopTracks st s
  | None => s
  end.

(** One event; [None] when the event cannot happen in the state. *)
Definition step (s : State) (e : Event) : option State :=
  match e with
  | ModelsSettled tiny expression =>
      if loading s then
        let s := set_loading false s in
        Some (if tiny && expression then setModelsLoaded_true s else s)
      else None
  | MediaSettled granted =>
      match requestingMedia s with
      | O => None
      | S n =>
          let s := set_requestingMedia n s in
          match granted with
          | Some st =>
              let s := set_liveTracks (liveTracks s ++ [st]) s in
              Some (if mounted s                       (* videoRef.current *)
                    then set_stream (Some st) (set_srcObject (Some st) s)
                    else s)
          | None => Some s
          end
      end
  | VideoPlay =>
      if mounted s then Some (handleVideoPlay s) else None
  | InferenceSettled i found =>
      match nth_error (inferences s) i with
      | Some c =>
          Some (resume c found (set_inferences (remove_nth i (inferences s)) s))
      | None => None
      end
  | InferenceFailed i =>
      match nth_error (inferences s) i with
      | Some _ => Some (set_inferences (remove_nth i (inferences s)) s)
      | None => None
      end
  | AnimationFrame =>
      match frames s with
      | (_, c) :: rest => Some (detectExpressions c (set_frames rest s))
      | [] => None
      end
  | Unmount =>
      if mounted s
      then Some (set_mounted false (cleanupDetection (cleanupModels s)))
      else None
  end.

Fixpoint run (s : State) (events : list Event) : option State :=
  match events with
  | [] => Some s
  | e :: rest =>
      match step s e with
      | Some s' => run s' rest
      | None => None
      end
  end.

End Component.

(** The component after its first render and the first run of its
    effects: [loadModels] has been called, nothing else has happened.
    A canvas is 300 by 150 until it is resized. *)
Definition mount (v : Video) : State :=
  {| modelsLoaded := false; stream := None; isVideoPlaying := false;
     mounted := true;
     canvas := {| width := 300; height := 150; context2d := true; drawn := [] |};
     video := v; srcObject := None; liveTracks := [];
     loading := true; requestingMedia := 0; inferences := [];
     frames := []; nextHandle := 1; currentRun := 0;
     animationFrameId := None |}.

(** [{!modelsLoaded && ...}]: a render shows the overlay
    [Loading models...]. *)
Definition showsLoading (s : State) : bool := negb (modelsLoaded s).

(** The events that run a callback of the detection loop. *)
Definition isLoopCallback (e : Event) : bool :=
  match e with
  | InferenceSettled _ _ | InferenceFailed _ | AnimationFrame => true
  | _ => false
  end.

(** The callbacks of the loop that are still to come, the continuation
    of an awaited inference counting twice since it may request a frame. *)
Definition pendingWork (s : State) : nat :=
  2 * List.length (inferences s) + List.length (frames s).

(** While the models are not loaded nothing of the loop has happened. *)
Definition idle (s : State) : Prop :=
  modelsLoaded s = false /\ inferences s = [] /\ frames s = []
  /\ nextHandle s = 1%nat /\ drawn (canvas s) = [].

(** What holds of every state the component reaches. *)
Definition consistent (s : State) : Prop :=
  (List.length (inferences s) + List.length (frames s) <= 1)%nat
  /\ (modelsLoaded s && isVideoPlaying s = false ->
      inferences s = [] /\ frames s = [])
  /\ (forall c, In c (inferences s) ->
        effectRun c = currentRun s /\ sawVideoPlaying c = true)
  /\ (forall h c, In (h, c) (frames s) ->
        effectRun c = currentRun s /\ sawVideoPlaying c = true
        /\ animationFrameId s = Some h /\ h <> 0%nat)
  /\ nextHandle s <> 0%nat.

End FaceDetection.

(** ** The stream handling of the component [WebcamCapture]

    [savePhoto] does not touch the stream and is left out, with
    [isSaving]. *)

Module WebcamCapture.

Definition MediaStream : Type := nat.

Record State : Type :=
  { (* useState *)
    stream : option MediaStream;
    capturedImage : option string;
    savedFileName : option string;
    (* the DOM *)
    mounted : bool;
    srcObject : option MediaStream;
    liveTracks : list MediaStream;     (* streams whose tracks run *)
    (* getUserMedia calls that have not settled *)
    requestingMedia : nat }.

Inductive Event : Type :=
| MediaSettled (granted : option MediaStream)
| CapturePhoto (imageDataUrl : string)   (* a click on [Take Photo]; the
                                            canvas has a 2D context *)
| Retake                                 (* a click on [Retake Photo] *)
| Unmount.

(** [!capturedImage] is false: the photo is shown instead of the video. *)
Definition reviewing (s : State) : bool :=
  match capturedImage s with
  | Some url => negb (String.eqb url "")
  | None => false
  end.

(** [videoRef.current]: the video element exists in camera mode only. *)
Definition hasVideo (s : State) : bool := mounted s && negb (reviewing s).

Definition stopTracks (st : MediaStream) (s : State) : State :=
  {| stream := stream s; capturedImage := capturedImage s;
     savedFileName := savedFileName s; mounted := mounted s;
     srcObject := srcObject s;
     liveTracks := filter (fun st' => negb (st' =? st)%nat) (liveTracks s);
     requestingMedia := requestingMedia s |}.

(** [startVideo] up to its [await], as created by a render whose
    [stream] was [held]. *)
Definition startVideo (held : option MediaStream) (s : State) : State :=
  let s := match held with
           | Some st => stopTracks st s
           | None => s
           end in
  {| stream := stream s; capturedImage := capturedImage s;
     savedFileName := savedFileName s; mounted := mounted s;
     srcObject := srcObject s; liveTracks := liveTracks s;
     requestingMedia := S (requestingMedia s) |}.

(** [useState<MediaStream | null>(null)]: the [stream] of the first
    render, which the mount effect and its cleanup close over. *)
Definition firstRenderStream : option MediaStream := None.

(** After the first render and its effect: [startVideo()] was called. *)
Definition mount : State :=
  startVideo firstRenderStream
    {| stream := None; capturedImage := None; savedFileName := None;
       mounted := true; srcObject := None; liveTracks := [];
       requestingMedia := 0 |}.

Definition step (s : State) (e : Event) : option State :=
  match e with
  | MediaSettled granted =>
      match requestingMedia s with
      | O => None
      | S n =>
          match granted with
          | Some st =>
              let live := (liveTracks s ++ [st])%list in
              Some (if hasVideo s
                    then {| stream := Some st; capturedImage := capturedImage s;
                            savedFileName := savedFileName s; mounted := mounted s;
                            srcObject := Some st; liveTracks := live;
                            requestingMedia := n |}
                    else {| stream := stream s; capturedImage := capturedImage s;
                            savedFileName := savedFileName s; mounted := mounted s;
                            srcObject := srcObject s; liveTracks := live;
                            requestingMedia := n |})
          | None =>
              Some {| stream := stream s; capturedImage := capturedImage s;
                      savedFileName := savedFileName s; mounted := mounted s;
                      srcObject := srcObject s; liveTracks := liveTracks s;
                      requestingMedia := n |}
          end
      end
  | CapturePhoto imageDataUrl =>
      if hasVideo s
      then Some {| stream := stream s; capturedImage := Some imageDataUrl;
                   savedFileName := None; mounted := mounted s;
                   srcObject := srcObject s; liveTracks := liveTracks s;
                   requestingMedia := requestingMedia s |}
      else None
  | Retake =>
      if mounted s && reviewing s
      then Some (startVideo (stream s)
                   {| stream := stream s; capturedImage := None;
                      savedFileName := None; mounted := mounted s;
                      srcObject := srcObject s; liveTracks := liveTracks s;
                      requestingMedia := requestingMedia s |})
      else None
  | Unmount =>
      if mounted s
      then
        let s := match firstRenderStream with
                 | Some st => stopTracks st s
                 | None => s
                 end in
        Some {| stream := stream s; capturedImage := capturedImage s;
                savedFileName := savedFileName s; mounted := false;
                srcObject := srcObject s; liveTracks := liveTracks s;
                requestingMedia := requestingMedia s |}
      else None
  end.

Fixpoint run (s : State) (events : list Event) : option State :=
  match events with
  | [] => Some s
  | e :: rest =>
      match step s e with
      | Some s' => run s' rest
      | None => None
      end
  end.

End WebcamCapture.

(** ** The data URL of a captured photo

    [canvas.toDataURL("image/png")] of [capturePhoto]: the browser encodes
    the bitmap as a PNG file, here the bytes [png], and returns them in
    base64 (standard alphabet, padded with [=]) behind the media type. A
    canvas without area gives [data:,]. *)

Module DataUrl.

Definition base64_char (n : N) : ascii :=
  if (n <? 26)%N then ascii_of_N (65 + n)
  else if (n <? 52)%N then ascii_of_N (71 + n)
  else if (n <? 62)%N then ascii_of_N (n - 4)
  else if (n =? 62)%N then "+"%char
  else "/"%char.

Fixpoint base64 (bytes : list byte) : string :=
  match bytes with
  | x :: y :: z :: rest =>
      let x := Byte.to_N x in
      let y := Byte.to_N y in
      let z := Byte.to_N z in
      String (base64_char (x / 4))
        (String (base64_char (x mod 4 * 16 + y / 16))
           (String (base64_char (y mod 16 * 4 + z / 64))
              (String (base64_char (z mod 64)) (base64 rest))))
  | [x; y] =>
      let x := Byte.to_N x in
      let y := Byte.to_N y in
      String (base64_char (x / 4))
        (String (base64_char (x mod 4 * 16 + y / 16))
           (String (base64_char (y mod 16 * 4)) "="))
  | [x] =>
      let x := Byte.to_N x in
      String (base64_char (x / 4)) (String (base64_char (x mod 4 * 16)) "==")
  | [] => ""
  end.

Definition toDataURL (width height : Z) (png : list byte) : string :=
  if (width =? 0)%Z || (height =? 0)%Z then "data:,"
  else "data:image/png;base64," ++ base64 png.

End DataUrl.

(** ** Capturing, saving and retaking a photo in [WebcamCapture]

    The part of the component that [WebcamCapture] above leaves out:
    [capturePhoto], [savePhoto] and [retake] on [capturedImage],
    [isSaving] and [savedFileName], together with the server behind
    [fetch("/api/save-image")], which runs the handler [POST] on the
    files it has. The view stays mounted. *)

Module PhotoFlow.

Import SaveImage.

Record State : Type :=
  { (* useState *)
    capturedImage : option string;
    isSaving : bool;
    savedFileName : option string;
    (* the fetches that have not settled, each with the image it carries *)
    requests : list string;
    (* the files of the server *)
    disk : files }.

Inductive Event : Type :=
| CapturePhoto (imageDataUrl : string)   (* a click on [Take Photo] *)
| SavePhoto                              (* a click on [Save Photo] *)
| Served (i : nat) (random : list byte) (arrives : bool)
    (* the server handles the [i]-th fetch, drawing [random]; the
       response arrives, or is lost and the fetch rejects *)
| Unreachable (i : nat)
    (* the [i]-th fetch rejects without having reached the server *)
| Retake.                                (* a click on [Retake Photo] *)

(** [!capturedImage] is false: the photo and its buttons are shown. *)
Definition reviewing (s : State) : bool :=
  match capturedImage s with
  | Some url => negb (String.eqb url "")
  | None => false
  end.

(** [disabled={isSaving || savedFileName !== null}] *)
Definition saveDisabled (s : State) : bool :=
  isSaving s || match savedFileName s with
                | Some _ => true
                | None => false
                end.

Section Flow.

Variable cwd : string.
Variable writable : string -> bool.
Variable partial : string -> option nat.

(** [JSON.stringify({ image: capturedImage })], as the server parses it. *)
Definition requestBody (image : string) : option json :=
  Some (JObj [("image", JStr image)]).

(** [savePhoto] from the response on: [if (data.success)], and the
    [finally] block. *)
Definition settle (resp : option response) (s : State) : State :=
  {| capturedImage := capturedImage s;
     isSaving := false;
     savedFileName :=
       match resp with
       | Some {| body := Saved fileName |} => Some fileName
       | _ => savedFileName s
       end;
     requests := requests s;
     disk := disk s |}.

Definition step (s : State) (e : Event) : option State :=
  match e with
  | CapturePhoto imageDataUrl =>
      if reviewing s then None
      else Some {| capturedImage := Some imageDataUrl;
                   isSaving := isSaving s;
                   savedFileName := None;
                   requests := requests s;
                   disk := disk s |}
  | SavePhoto =>
      if reviewing s && negb (saveDisabled s) then
        match capturedImage s with
        | Some image =>
            Some {| capturedImage := capturedImage s;
                    isSaving := true;
                    savedFileName := savedFileName s;
                    requests := (requests s ++ [image])%list;
                    disk := disk s |}
        | None => None
        end
      else None
  | Served i random arrives =>
      match nth_error (requests s) i with
      | Some image =>
          let (resp, disk') := POST cwd writable partial (disk s) random (requestBody image) in
          Some (settle (if arrives then Some resp else None)
                  {| capturedImage := capturedImage s;
                     isSaving := isSaving s;
                     savedFileName := savedFileName s;
                     requests := FaceDetection.remove_nth i (requests s);
                     disk := disk' |})
      | None => None
      end
  | Unreachable i =>
      match nth_error (requests s) i with
      | Some _ =>
          Some (settle None
                  {| capturedImage := capturedImage s;
                     isSaving := isSaving s;
                     savedFileName := savedFileName s;
                     requests := FaceDetection.remove_nth i (requests s);
                     disk := disk s |})
      | None => None
      end
  | Retake =>
      if reviewing s
      then Some {| capturedImage := None;
                   isSaving := isSaving s;
                   savedFileName := None;
                   requests := requests s;
                   disk := disk s |}
      else None
  end.

Fixpoint run (s : State) (events : list Event) : option State :=
  match events with
  | [] => Some s
  | e :: rest =>
      match step s e with
      | Some s' => run s' rest
      | None => None
      end
  end.

(** A file of that name is in the directory of the photos. *)
Definition stored (name : string) (s : State) : Prop :=
  exists random content,
    name = toHex random ++ ".png"
    /\ In (join (publicPath cwd) name, content) (disk s).

(** What holds of every state of the flow. *)
Definition consistent (s : State) : Prop :=
  (List.length (requests s) <= 1)%nat
  /\ (isSaving s = true <-> requests s <> [])
  /\ (forall name, savedFileName s = Some name -> stored name s).

End Flow.

(** The view after its first render, over the files the server has. *)
Definition mount (fs : files) : State :=
  {| capturedImage := None; isSaving := false; savedFileName := None;
     requests := []; disk := fs |}.

End PhotoFlow.

(** ** What [FaceDetection] keeps in order

    Invariants of the transition system beyond [FaceDetection.consistent]:
    how often the camera is asked for and what the overlay can hold. *)

Module Lifecycle.

Import Overlay FaceDetection.

(** The camera streams asked for: the calls of [getUserMedia] that have
    not settled and the streams that were granted. *)
Definition acquisitions (s : State) : nat :=
  requestingMedia s + List.length (liveTracks s).

(** The drawings of at most one frame: one box, and the text stroked and
    filled. *)
Definition oneFrame (l : list Drawing) : Prop :=
  (List.length (filter isBox l) <= 1)%nat
  /\ (List.length (filter isText l) <= 2)%nat.

Definition orderly (s : State) : Prop :=
  (acquisitions s <= 1)%nat
  /\ (modelsLoaded s = false -> acquisitions s = 0%nat /\ stream s = None)
  /\ stream s = srcObject s
  /\ (forall st, stream s = Some st -> In st (liveTracks s))
  /\ (modelsLoaded s && isVideoPlaying s = false -> drawn (canvas s) = [])
  /\ oneFrame (drawn (canvas s)).

(** The loop has started and has nothing left to run. *)
Definition halted (s : State) : Prop :=
  modelsLoaded s = true /\ isVideoPlaying s = true
  /\ inferences s = [] /\ frames s = [].

End Lifecycle.

(** ** [WebcamCapture] used one step at a time

    The same component, with the buttons clicked only while no
    [getUserMedia] call is pending. *)

Module PatientUse.

Import WebcamCapture.

Definition step (s : State) (e : Event) : option State :=
  match e with
  | CapturePhoto _ | Retake =>
      match requestingMedia s with
      | O => WebcamCapture.step s e
      | S _ => None
      end
  | MediaSettled _ | Unmount => WebcamCapture.step s e
  end.

Fixpoint run (s : State) (events : list Event) : option State :=
  match events with
  | [] => Some s
  | e :: rest =>
      match step s e with
      | Some s' => run s' rest
      | None => None
      end
  end.

(** At most one stream is live, the one the mounted component holds, and
    none while a request is pending, which is never while a photo is
    shown. *)
Definition tidy (s : State) : Prop :=
  (List.length (liveTracks s) <= 1)%nat
  /\ (mounted s = true -> forall st, In st (liveTracks s) -> stream s = Some st)
  /\ (requestingMedia s <= 1)%nat
  /\ (requestingMedia s = 1%nat ->
      liveTracks s = [] /\ (mounted s = true -> reviewing s = false)).

End PatientUse.

(** * Properties *)

(** ** The route handler *)

Section SaveImageFacts.

Import SaveImage.

Lemma append_assoc (a b c : string) : (a ++ b) ++ c = a ++ (b ++ c).
Proof. induction a as [|x a IH]; simpl; [reflexivity | now rewrite IH]. Qed.

Lemma hex_digit_hi (b : byte) : is_lower_hex (hex_digit (Byte.to_N b / 16)) = true.
Proof. destruct b; reflexivity. Qed.

Lemma hex_digit_lo (b : byte) : is_lower_hex (hex_digit (Byte.to_N b mod 16)) = true.
Proof. destruct b; reflexivity. Qed.

(** Every byte prints as two lowercase hexadecimal digits. *)
Lemma toHex_matches (bytes : list byte) :
  matches (Rep (2 * List.length bytes) (Chr is_lower_hex)) (toHex bytes).
Proof.
  induction bytes as [|b rest IH]; simpl.
  - constructor.
  - replace (List.length rest + S (List.length rest + 0))%nat
      with (S (2 * List.length rest)) by lia.
    apply (M_RepS _ _ (String _ "") (String _ (toHex rest))).
    + constructor. apply hex_digit_hi.
    + apply (M_RepS _ _ (String _ "") (toHex rest)).
      * constructor. apply hex_digit_lo.
      * exact IH.
Qed.

Lemma fileName_matches (random : list byte) :
  List.length random = 16%nat ->
  matches fileName_regex (toHex random ++ ".png").
Proof.
  intros Hlen. apply M_Cat; [|constructor].
  change 32%nat with (2 * 16)%nat. rewrite <- Hlen. apply toHex_matches.
Qed.

Lemma strip_literal_app (p s : string) : strip_literal p (p ++ s) = Some s.
Proof.
  induction p as [|a p IH]; simpl; [reflexivity|].
  now rewrite Ascii.eqb_refl.
Qed.

Lemma skip_word_app (w s : string) :
  all_chars is_word_char w = true ->
  skip_word (w ++ ";base64," ++ s) = ";base64," ++ s.
Proof.
  induction w as [|c w IH]; simpl; intros H; [reflexivity|].
  apply andb_prop in H as [Hc Hw]. rewrite Hc. now apply IH.
Qed.

Lemma matches_class (p : ascii -> bool) (s : string) :
  matches (Chr p) s -> exists c, s = String c "" /\ p c = true.
Proof. intros H. inversion H; subst. now exists c. Qed.

(** What [\w+] matches is a nonempty string of word characters. *)
Lemma matches_plus_class (p : ascii -> bool) (w : string) :
  matches (Plus (Chr p)) w -> w <> "" /\ all_chars p w = true.
Proof.
  intros H. remember (Plus (Chr p)) as r eqn:Hr.
  induction H; try discriminate; injection Hr as ->.
  - apply matches_class in H as (c & -> & Hc).
    split; [discriminate|]. simpl. now rewrite Hc.
  - apply matches_class in H as (c & -> & Hc).
    destruct (IHmatches2 eq_refl) as [_ Hall].
    split; [discriminate|]. simpl. now rewrite Hc.
Qed.

(** The replacement removes a prefix that the pattern matches. *)
Lemma replace_strips (prefix base64Data : string) :
  matches data_url_prefix_regex prefix ->
  replace_data_url_prefix (prefix ++ base64Data) = base64Data.
Proof.
  intros H. inversion H as [| |r1 r2 s1 s2 H1 H2| | | |]; subst.
  inversion H1; subst.
  inversion H2 as [| |r1 r2 w s3 Hw H3| | | |]; subst.
  inversion H3; subst.
  apply matches_plus_class in Hw as [Hne Hall].
  unfold replace_data_url_prefix.
  rewrite !append_assoc, strip_literal_app.
  destruct w as [|c w]; [congruence|].
  simpl in Hall. apply andb_prop in Hall as [Hc Hall].
  change (String c w ++ ";base64," ++ base64Data)
    with (String c (w ++ ";base64," ++ base64Data)).
  cbv iota beta. rewrite Hc.
  cbn [skip_word]. rewrite Hc.
  rewrite (skip_word_app w base64Data Hall).
  now rewrite strip_literal_app.
Qed.

(** The handler on a body whose [image] is a string. *)
Lemma POST_string_image cwd writable partial fs random kvs image :
  property "image" kvs = Some (JStr image) ->
  POST cwd writable partial fs random (Some (JObj kvs)) =
    let fileName := toHex random ++ ".png" in
    let path := join (publicPath cwd) fileName in
    if writable path
    then ({| body := Saved fileName; status := 200 |},
          (path, Buffer_from_base64 (replace_data_url_prefix image)) :: fs)
    else ({| body := Failed "Failed to save image"; status := 500 |},
          match partial path with
          | Some n =>
              (path, firstn n (Buffer_from_base64 (replace_data_url_prefix image)))
              :: fs
          | None => fs
          end).
Proof.
  intros Himg. unfold POST, POST_try, POST_prepare, writeFile. simpl.
  rewrite Himg. simpl.
  destruct (writable _); [reflexivity|]. destruct (partial _); reflexivity.
Qed.

End SaveImageFacts.

Import SaveImage.

(** C1, as stated, fails: the data URI is a well-formed PNG one and the
    random name has its 16 bytes, yet the handler answers with the
    failure response when the write is rejected, because [writeFile] is
    inside the [try] block. *)
Lemma save_png_write_rejected :
  ~ (forall cwd writable partial fs random kvs image,
        List.length random = 16%nat ->
        property "image" kvs = Some (JStr image) ->
        png_data_uri image ->
        exists fileName,
          fst (POST cwd writable partial fs random (Some (JObj kvs)))
            = {| body := Saved fileName; status := 200 |}
          /\ matches fileName_regex fileName).
Proof.
  intros claim.
  destruct (claim "/srv/app" (fun _ => false) (fun _ => None) [] (repeat Byte.x2a 16)
              [("image", JStr "data:image/png;base64,iVBORw0KGgo=")]
              "data:image/png;base64,iVBORw0KGgo=")
    as (fileName & Hresp & _).
  - reflexivity.
  - reflexivity.
  - exists "iVBORw0KGgo=". split; reflexivity.
  - discriminate Hresp.
Qed.

(** C1, amended: a POST whose body is a JSON object with a well-formed
    PNG data URI in [image] is answered with [{success: true, fileName}]
    and status 200, where [fileName] matches [^[0-9a-f]{32}\.png$],
    provided the write of the file succeeds. *)
Theorem save_png_succeeds cwd writable partial fs random kvs image :
  List.length random = 16%nat ->
  property "image" kvs = Some (JStr image) ->
  png_data_uri image ->
  writable (join (publicPath cwd) (toHex random ++ ".png")) = true ->
  exists fileName fs',
    POST cwd writable partial fs random (Some (JObj kvs))
      = ({| body := Saved fileName; status := 200 |}, fs')
    /\ matches fileName_regex fileName.
Proof.
  intros Hlen Himg _ Hw.
  rewrite (POST_string_image _ _ _ _ _ _ _ Himg). cbv zeta. rewrite Hw.
  eexists _, _. split; [reflexivity|]. now apply fileName_matches.
Qed.

Lemma save_png_succeeds_witness :
  exists fileName fs',
    POST "/srv/app" (fun _ => true) (fun _ => None) [] (repeat Byte.x2a 16)
      (Some (JObj [("image", JStr "data:image/png;base64,iVBORw0KGgo=")]))
      = ({| body := Saved fileName; status := 200 |}, fs')
    /\ matches fileName_regex fileName.
Proof.
  apply (save_png_succeeds "/srv/app" (fun _ => true) (fun _ => None) [] (repeat Byte.x2a 16)
           [("image", JStr "data:image/png;base64,iVBORw0KGgo=")]
           "data:image/png;base64,iVBORw0KGgo=").
  - reflexivity.
  - reflexivity.
  - exists "iVBORw0KGgo=". split; reflexivity.
  - reflexivity.
Defined.

(** C8: a POST with a malformed body (not JSON, or without an [image]
    that is a string) is answered with [{success: false, error}] and
    status 500, nothing is written, and no request at all gets a failure
    response of another shape: every response is either the success
    response with status 200 or this one. *)
Theorem malformed_body_fails cwd writable partial fs random raw :
  (malformed raw -> POST cwd writable partial fs random raw = (failure, fs))
  /\ ((exists fileName,
         fst (POST cwd writable partial fs random raw)
           = {| body := Saved fileName; status := 200 |})
      \/ fst (POST cwd writable partial fs random raw) = failure).
Proof.
  split.
  - intros Hbad. unfold POST, POST_try, POST_prepare.
    destruct raw as [data|]; [|reflexivity].
    destruct data as [| | | | |kvs]; try reflexivity.
    simpl in *. destruct (property "image" kvs) as [[| | | | |]|];
      try reflexivity. contradiction.
  - unfold POST. destruct (POST_try _ _ _ _ _ _) as [[fileName|] fs'].
    + left. now exists fileName.
    + right. reflexivity.
Qed.

Lemma malformed_body_fails_witness :
  POST "/srv/app" (fun _ => true) (fun _ => None) [] (repeat Byte.x2a 16)
    (Some (JObj [("image", JNum 42)])) = (failure, [])
  /\ POST "/srv/app" (fun _ => true) (fun _ => None) [] (repeat Byte.x2a 16) None = (failure, []).
Proof.
  split.
  - apply (malformed_body_fails "/srv/app" (fun _ => true) (fun _ => None) [] (repeat Byte.x2a 16)
             (Some (JObj [("image", JNum 42)]))). exact I.
  - apply (malformed_body_fails "/srv/app" (fun _ => true) (fun _ => None) [] (repeat Byte.x2a 16)
             None). exact I.
Defined.

(** C10: whenever the handler answers with success, the body carried a
    string [image], the returned name is the hexadecimal random name
    followed by [.png] whatever media type the data URI declares, and the
    file written under that name holds the base64 decoding of [image]
    without its prefix, where any prefix matching
    [^data:image\/\w+;base64,] is removed. *)
Theorem saved_name_ends_in_png cwd writable partial fs random raw resp fs' fileName :
  POST cwd writable partial fs random raw = (resp, fs') ->
  body resp = Saved fileName ->
  fileName = toHex random ++ ".png"
  /\ (exists kvs image,
        raw = Some (JObj kvs)
        /\ property "image" kvs = Some (JStr image)
        /\ fs' = (join (publicPath cwd) fileName,
                  Buffer_from_base64 (replace_data_url_prefix image)) :: fs)
  /\ (forall prefix base64Data,
        matches data_url_prefix_regex prefix ->
        replace_data_url_prefix (prefix ++ base64Data) = base64Data).
Proof.
  intros HPOST Hbody. split; [|split]; [| |exact replace_strips].
  - unfold POST, POST_try, POST_prepare in HPOST.
    destruct raw as [data|]; simpl in HPOST;
      [|injection HPOST as <- <-; discriminate].
    destruct (destructure_image data) as [image|]; simpl in HPOST;
      [|injection HPOST as <- <-; discriminate].
    destruct (image_replace image) as [b64|]; simpl in HPOST;
      [|injection HPOST as <- <-; discriminate].
    destruct (writeFile _ _ _ _ _) as [[[]|] fs1]; simpl in HPOST;
      injection HPOST as <- <-; simpl in Hbody; congruence.
  - destruct raw as [[| | | | |kvs]|];
      try (unfold POST in HPOST; simpl in HPOST; injection HPOST as <- <-;
           discriminate).
    destruct (property "image" kvs) as [[| | |image| |]|] eqn:Himg;
      try (unfold POST, POST_try, POST_prepare in HPOST; simpl in HPOST;
           rewrite Himg in HPOST; simpl in HPOST; injection HPOST as <- <-;
           discriminate).
    rewrite (POST_string_image _ _ _ _ _ _ _ Himg) in HPOST. cbv zeta in HPOST.
    destruct (writable _); injection HPOST as <- <-; [|discriminate].
    simpl in Hbody. injection Hbody as <-.
    exists kvs, image. repeat split; assumption.
Qed.

(** A JPEG data URI is saved under a [.png] name, and the file holds the
    JPEG bytes (here the marker FF D8 FF). *)
Lemma saved_name_ends_in_png_witness :
  "2a2a2a2a2a2a2a2a2a2a2a2a2a2a2a2a.png" = toHex (repeat Byte.x2a 16) ++ ".png"
  /\ (exists kvs image,
        Some (JObj [("image", JStr "data:image/jpeg;base64,/9j/")]) = Some (JObj kvs)
        /\ property "image" kvs = Some (JStr image)
        /\ [("/srv/app/public/captured-photos/2a2a2a2a2a2a2a2a2a2a2a2a2a2a2a2a.png",
             [Byte.xff; Byte.xd8; Byte.xff])]
           = (join (publicPath "/srv/app") "2a2a2a2a2a2a2a2a2a2a2a2a2a2a2a2a.png",
              Buffer_from_base64 (replace_data_url_prefix image)) :: [])
  /\ (forall prefix base64Data,
        matches data_url_prefix_regex prefix ->
        replace_data_url_prefix (prefix ++ base64Data) = base64Data).
Proof.
  apply (saved_name_ends_in_png "/srv/app" (fun _ => true) (fun _ => None) [] (repeat Byte.x2a 16)
           (Some (JObj [("image", JStr "data:image/jpeg;base64,/9j/")]))
           {| body := Saved "2a2a2a2a2a2a2a2a2a2a2a2a2a2a2a2a.png"; status := 200 |}).
  - reflexivity.
  - reflexivity.
Defined.

(** ** The overlay *)

Section FloatOrder.

Import Overlay.

Lemma SFltb_rank (x y : spec_float) :
  x <> S754_nan -> y <> S754_nan ->
  (SFltb x y = true <-> rank_lt (rank x) (rank y)).
Proof.
  intros Hx Hy. unfold SFltb, SFcompare.
  destruct x as [sx|sx| |sx mx ex], y as [sy|sy| |sy my ey];
    try congruence;
    repeat match goal with s : bool |- _ => destruct s end;
    cbn [rank rank_lt];
    try (split; [discriminate | lia]);
    try (split; [lia | reflexivity]);
    change (PosDef.Pos.compare_cont Eq mx my) with (Pos.compare mx my);
    destruct (Z.compare_spec ex ey); destruct (Pos.compare_spec mx my);
    cbn [CompOpp]; split; (discriminate || reflexivity || lia).
Qed.

Lemma not_NaN (x : float) : isNaN x = false -> Prim2SF x <> S754_nan.
Proof.
  unfold isNaN. rewrite FloatAxioms.eqb_spec. intros H Hnan.
  rewrite Hnan in H. discriminate H.
Qed.

Lemma gt_rank (a b : float) :
  isNaN a = false -> isNaN b = false ->
  (gt a b = true <-> rank_lt (rank (Prim2SF b)) (rank (Prim2SF a))).
Proof.
  intros Ha Hb. unfold gt. rewrite FloatAxioms.ltb_spec.
  apply SFltb_rank; now apply not_NaN.
Qed.

Lemma gt_false_rank (a b : float) :
  isNaN a = false -> isNaN b = false ->
  (gt a b = false <-> ~ rank_lt (rank (Prim2SF b)) (rank (Prim2SF a))).
Proof.
  intros Ha Hb. rewrite <- (gt_rank a b Ha Hb).
  destruct (gt a b); split; congruence.
Qed.

(** [a > b] excludes [b > a]. *)
Lemma gt_asym (a b : float) :
  isNaN a = false -> isNaN b = false -> gt a b = true -> gt b a = false.
Proof.
  intros Ha Hb H. apply (gt_false_rank b a Hb Ha).
  apply (gt_rank a b Ha Hb) in H. revert H. unfold rank_lt.
  destruct (rank (Prim2SF a)) as [[a1 a2] a3], (rank (Prim2SF b)) as [[b1 b2] b3].
  lia.
Qed.

(** [a <= b <= c] gives [a <= c], where [<=] is "not greater". *)
Lemma gt_false_trans (a b c : float) :
  isNaN a = false -> isNaN b = false -> isNaN c = false ->
  gt a b = false -> gt b c = false -> gt a c = false.
Proof.
  intros Ha Hb Hc Hab Hbc. apply (gt_false_rank a c Ha Hc).
  apply (gt_false_rank a b Ha Hb) in Hab.
  apply (gt_false_rank b c Hb Hc) in Hbc.
  revert Hab Hbc. unfold rank_lt.
  destruct (rank (Prim2SF a)) as [[a1 a2] a3], (rank (Prim2SF b)) as [[b1 b2] b3],
    (rank (Prim2SF c)) as [[c1 c2] c3].
  lia.
Qed.

End FloatOrder.

Section OverlayFacts.

Import Overlay.

(** The fold of [moreConfident]: once [acc] is not exceeded by anything
    seen and exceeds everything seen after it, the same holds of the
    result for the whole list. *)
Lemma fold_moreConfident (rest : list (string * float)) :
  forall pre acc post,
    (forall x, In x (pre ++ acc :: post ++ rest)%list -> isNaN (snd x) = false) ->
    (forall x, In x (pre ++ acc :: post)%list -> gt (snd x) (snd acc) = false) ->
    (forall x, In x post -> gt (snd acc) (snd x) = true) ->
    exists pre' d post',
      (pre ++ acc :: post ++ rest = pre' ++ d :: post')%list
      /\ fold_left moreConfident rest acc = d
      /\ (forall x, In x (pre' ++ d :: post')%list -> gt (snd x) (snd d) = false)
      /\ (forall x, In x post' -> gt (snd d) (snd x) = true).
Proof.
  induction rest as [|b rest IH]; intros pre acc post Hnan Hmax Hlast.
  - exists pre, acc, post. rewrite app_nil_r. repeat split; assumption.
  - assert (Hacc : isNaN (snd acc) = false)
      by (apply Hnan, in_or_app; right; left; reflexivity).
    assert (Hb : isNaN (snd b) = false).
    { apply Hnan, in_or_app. right. right. apply in_or_app. right. now left. }
    cbn [fold_left]. unfold moreConfident at 2.
    destruct (gt (snd acc) (snd b)) eqn:Hgt.
    + destruct (IH pre acc (post ++ [b])%list) as (pre' & d & post' & Heq & Hd & H1 & H2).
      * intros x Hx. apply Hnan. rewrite <- app_assoc in Hx. exact Hx.
      * intros x Hx. rewrite app_comm_cons, app_assoc in Hx.
        apply in_app_or in Hx as [Hx|[<-|[]]]; [now apply Hmax|].
        now apply gt_asym.
      * intros x Hx. apply in_app_or in Hx as [Hx|[<-|[]]]; [now apply Hlast|].
        exact Hgt.
      * exists pre', d, post'. split; [|now repeat split].
        rewrite <- Heq, <- app_assoc. reflexivity.
    + destruct (IH (pre ++ acc :: post)%list b []) as (pre' & d & post' & Heq & Hd & H1 & H2).
      * intros x Hx. apply Hnan. rewrite <- app_assoc in Hx. exact Hx.
      * intros x Hx. apply in_app_or in Hx as [Hx|[<-|[]]].
        -- apply (gt_false_trans (snd x) (snd acc) (snd b)); trivial.
           ++ apply Hnan. rewrite app_comm_cons, app_assoc.
              apply in_or_app. now left.
           ++ now apply Hmax.
        -- destruct (gt (snd b) (snd b)) eqn:Hbb; [|reflexivity].
           now rewrite (gt_asym _ _ Hb Hb Hbb) in Hbb.
      * intros x [].
      * exists pre', d, post'. split; [|now repeat split].
        rewrite <- Heq, <- app_assoc. reflexivity.
Qed.

End OverlayFacts.

Import Overlay.

(** C2, as stated, fails: with two entries of equal, highest confidence
    the reduction returns the later one, since [a[1] > b[1] ? a : b]
    keeps [a] only when it is strictly greater. So the entries before the
    chosen one need not be strictly lower. *)
Lemma tie_goes_to_the_later_entry :
  ~ (forall pre d post,
        dominantExpression (pre ++ d :: post)%list = Ok d ->
        forall x, In x pre -> gt (snd d) (snd x) = true).
Proof.
  intros claim.
  specialize (claim [("happy", 0.5%float)] ("sad", 0.5%float) [] eq_refl
                ("happy", 0.5%float) (or_introl eq_refl)).
  discriminate claim.
Qed.

(** C2, amended: for every expression-confidence mapping that is not
    empty and has no NaN confidence, the reduction (with its strict
    greater-than comparison) returns an entry of the mapping that no
    entry exceeds, and every entry after it in iteration order is
    strictly lower: among entries tied for the highest confidence the
    last one wins. *)
Theorem dominant_is_last_highest (expressions : list (string * float)) :
  expressions <> [] ->
  (forall x, In x expressions -> isNaN (snd x) = false) ->
  exists pre d post,
    expressions = (pre ++ d :: post)%list
    /\ dominantExpression expressions = Ok d
    /\ (forall x, In x expressions -> gt (snd x) (snd d) = false)
    /\ (forall x, In x post -> gt (snd d) (snd x) = true).
Proof.
  intros Hne Hnan. destruct expressions as [|a rest]; [congruence|].
  destruct (fold_moreConfident rest [] a []) as (pre & d & post & Heq & Hd & H1 & H2).
  - exact Hnan.
  - intros x [<-|[]]. destruct (gt (snd a) (snd a)) eqn:Haa; [|reflexivity].
    assert (Ha : isNaN (snd a) = false) by (apply Hnan; now left).
    now rewrite (gt_asym _ _ Ha Ha Haa) in Haa.
  - intros x [].
  - exists pre, d, post. cbn [app] in Heq.
    split; [exact Heq|]. split; [|split; [|exact H2]].
    + unfold dominantExpression, reduce. now rewrite Hd.
    + intros x Hx. apply H1. rewrite <- Heq. exact Hx.
Qed.

Lemma dominant_is_last_highest_witness :
  exists pre d post,
    [("happy", 0.5%float); ("neutral", 0.25%float); ("sad", 0.5%float);
     ("angry", 0.125%float)] = (pre ++ d :: post)%list
    /\ dominantExpression
         [("happy", 0.5%float); ("neutral", 0.25%float); ("sad", 0.5%float);
          ("angry", 0.125%float)] = Ok d
    /\ (forall x,
          In x [("happy", 0.5%float); ("neutral", 0.25%float); ("sad", 0.5%float);
                ("angry", 0.125%float)] -> gt (snd x) (snd d) = false)
    /\ (forall x, In x post -> gt (snd d) (snd x) = true).
Proof.
  apply (dominant_is_last_highest
           [("happy", 0.5%float); ("neutral", 0.25%float); ("sad", 0.5%float);
            ("angry", 0.125%float)]).
  - discriminate.
  - intros x [<-|[<-|[<-|[<-|[]]]]]; reflexivity.
Defined.

(** [Math.round]: the integer chosen for a finite float [m * 2^e] with a
    negative exponent is within one half of it, the upper one of two
    candidates. In units of [2^-(k+1)], with [k = - e]. *)
Lemma round_finite_nearest (s : bool) (m : positive) (e : Z) :
  (e < 0)%Z ->
  let sm := if s then Z.neg m else Z.pos m in
  let n := round_finite s m e in
  (2 * sm - 2 ^ (- e) < n * 2 ^ (- e + 1) <= 2 * sm + 2 ^ (- e))%Z.
Proof.
  intros He sm n. subst n. unfold round_finite.
  destruct (Z.leb_spec 0 e) as [H|_]; [lia|]. fold sm.
  assert (Hpow : (2 ^ (- e + 1) = 2 * 2 ^ (- e))%Z) by (apply Z.pow_succ_r; lia).
  assert (Hpos : (0 < 2 ^ (- e))%Z) by (apply Z.pow_pos_nonneg; lia).
  rewrite Hpow.
  pose proof (Z.div_mod (2 * sm + 2 ^ (- e)) (2 * 2 ^ (- e)) ltac:(lia)) as Hdm.
  pose proof (Z.mod_pos_bound (2 * sm + 2 ^ (- e)) (2 * 2 ^ (- e)) ltac:(lia)) as Hb.
  lia.
Qed.

Section RenderFacts.

Import Overlay.

Variable resizeResults : Detection -> Dimensions -> Box.
Variable measureText : string -> float.

(** [Math.round] gives the nearest integer, whatever the exponent. *)
Lemma round_finite_is_nearest (s : bool) (m : positive) (e : Z) :
  nearest (round_finite s m e) (S754_finite s m e).
Proof.
  cbn [nearest]. unfold numerator, scale.
  destruct (Z.ltb_spec e 0) as [He|He].
  - pose proof (round_finite_nearest s m e He) as H. cbv zeta in H.
    replace (Z.max 0 (- e)) with (- e)%Z by lia.
    replace (e + - e)%Z with 0%Z by lia.
    replace (2 ^ (- e + 1))%Z with (2 * 2 ^ (- e))%Z in H
      by (symmetry; apply Z.pow_succ_r; lia).
    change (2 ^ 0)%Z with 1%Z. lia.
  - unfold round_finite. destruct (Z.leb_spec 0 e) as [_|H]; [|lia].
    replace (Z.max 0 (- e)) with 0%Z by lia. rewrite Z.add_0_r.
    change (2 ^ 0)%Z with 1%Z. lia.
Qed.

(** The text of a finite number: its nearest integer in decimal. *)
Lemma roundedToString_nearest (x : float) :
  isFinite x = true ->
  exists n, nearest n (Prim2SF x) /\ roundedToString x = decimal n.
Proof.
  unfold isFinite, roundedToString. destruct (Prim2SF x) as [s|s| |s m e];
    try discriminate; intros _.
  - exists 0%Z. split; reflexivity.
  - exists (round_finite s m e). split; [apply round_finite_is_nearest|reflexivity].
Qed.

Lemma digits2_pos_bounds (p : positive) :
  (2 ^ (Z.pos (digits2_pos p) - 1) <= Z.pos p < 2 ^ Z.pos (digits2_pos p))%Z.
Proof.
  induction p as [p IH|p IH|]; cbn [digits2_pos];
    try (rewrite Pos2Z.inj_succ;
         replace (Z.succ (Z.pos (digits2_pos p)) - 1)%Z
           with (Z.succ (Z.pos (digits2_pos p) - 1)) by lia;
         rewrite !Z.pow_succ_r by lia; lia).
  cbn. lia.
Qed.

Lemma iter_xO_digits (k p : positive) :
  digits2_pos (Pos.iter xO p k) = (digits2_pos p + k)%positive.
Proof.
  induction k as [|k IH] using Pos.peano_ind.
  - cbn. lia.
  - rewrite Pos.iter_succ. cbn [digits2_pos]. rewrite IH. lia.
Qed.

Lemma iter_xO_value (k p : positive) :
  Z.pos (Pos.iter xO p k) = (Z.pos p * 2 ^ Z.pos k)%Z.
Proof.
  induction k as [|k IH] using Pos.peano_ind.
  - cbn. lia.
  - rewrite Pos.iter_succ, Pos2Z.inj_succ, Z.pow_succ_r by lia.
    rewrite Pos2Z.inj_xO, IH. lia.
Qed.

(** A mantissa of 53 bits is not rounded. *)
Lemma binary_round_aux_exact (s : bool) (m : positive) (e : Z) :
  Z.pos (digits2_pos m) = 53%Z -> (-1074 <= e <= 971)%Z ->
  binary_round_aux prec emax s (Z.pos m) e loc_Exact = S754_finite s m e.
Proof.
  intros Hd He. unfold binary_round_aux, shr_fexp.
  cbn [Zdigits2 shr_record_of_loc]. rewrite Hd.
  assert (Hf : (fexp prec emax (53 + e) - e = 0)%Z).
  { unfold fexp, emin, prec, emax. lia. }
  rewrite Hf. cbn [shr shr_m loc_of_shr_record round_nearest_even Zdigits2].
  rewrite Hd, Hf. cbn [shr shr_m].
  unfold emax, prec. destruct (Z.leb_spec e (1024 - 53)); [reflexivity|lia].
Qed.

(** The number of a canvas dimension is that integer: an integer below
    [2^53] is a float. *)
Lemma toNumber_exact (n : Z) :
  (0 <= n < 2 ^ 53)%Z -> exactly n (Prim2SF (toNumber n)).
Proof.
  intros Hn. unfold toNumber. rewrite FloatAxioms.of_uint63_spec.
  rewrite Uint63.of_Z_spec, Z.mod_small by (unfold wB; cbn; lia).
  destruct n as [|p|p]; [reflexivity| |lia].
  cbn [binary_normalize]. unfold binary_round, shl_align.
  pose proof (digits2_pos_bounds p) as Hb.
  assert (Hd : (Z.pos (digits2_pos p) <= 53)%Z).
  { destruct (Z.le_gt_cases (Z.pos (digits2_pos p)) 53) as [H|H]; [exact H|].
    assert (2 ^ 53 <= 2 ^ (Z.pos (digits2_pos p) - 1))%Z
      by (apply Z.pow_le_mono_r; lia).
    lia. }
  assert (Hf : (fexp prec emax (Z.pos (digits2_pos p) + 0) - 0
                = Z.pos (digits2_pos p) - 53)%Z).
  { unfold fexp, emin, prec, emax. lia. }
  rewrite Hf.
  destruct (Z.pos (digits2_pos p) - 53)%Z as [|q|q] eqn:Hq; [|lia|].
  - rewrite binary_round_aux_exact by lia. cbn. unfold numerator, scale. cbn. lia.
  - assert (He : fexp prec emax (Z.pos (digits2_pos p) + 0) = Z.neg q).
    { unfold fexp, emin, prec, emax. lia. }
    rewrite He, binary_round_aux_exact.
    + cbn [exactly]. unfold numerator, scale.
      rewrite iter_xO_value.
      replace (Z.neg q + Z.max 0 (- Z.neg q))%Z with 0%Z by lia.
      replace (Z.max 0 (- Z.neg q)) with (Z.pos q) by lia. lia.
    + rewrite iter_xO_digits. lia.
    + lia.
Qed.

(** [a > b] holds of numbers only. *)
Lemma gt_true_not_NaN (a b : float) :
  gt a b = true -> isNaN a = false /\ isNaN b = false.
Proof.
  unfold gt, isNaN. rewrite FloatAxioms.ltb_spec, !FloatAxioms.eqb_spec.
  unfold SFltb, SFeqb.
  destruct (Prim2SF a) as [sa|sa| |sa ma ea], (Prim2SF b) as [sb|sb| |sb mb eb];
    cbn; try discriminate; intros _; split; try reflexivity;
    repeat match goal with s : bool |- _ => destruct s end; cbn;
    rewrite ?Z.compare_refl, ?Pos.compare_cont_refl; try reflexivity.
Qed.

(** The hundredfold of NaN is NaN. *)
Lemma finite_hundredfold_not_NaN (c : float) :
  isFinite (c * 100)%float = true -> isNaN c = false.
Proof.
  unfold isFinite, isNaN. rewrite FloatAxioms.mul_spec, FloatAxioms.eqb_spec.
  unfold SFeqb.
  destruct (Prim2SF c) as [s|s| |s m e]; cbn; try discriminate; intros _;
    try reflexivity; destruct s; cbn;
    rewrite ?Z.compare_refl, ?Pos.compare_cont_refl; reflexivity.
Qed.

(** The reduction selects the entry that is strictly above all others,
    wherever it stands. *)
Lemma strictly_highest_is_dominant
  (expressions : list (string * float)) (d : string * float) :
  In d expressions ->
  isNaN (snd d) = false ->
  (forall x, In x expressions -> x = d \/ gt (snd d) (snd x) = true) ->
  dominantExpression expressions = Ok d.
Proof.
  intros Hin Hd Hothers. destruct expressions as [|a rest]; [destruct Hin|].
  assert (Hnan : forall x, In x (a :: rest) -> isNaN (snd x) = false).
  { intros x Hx. destruct (Hothers x Hx) as [->|Hgt]; [exact Hd|].
    now apply gt_true_not_NaN in Hgt. }
  destruct (fold_moreConfident rest [] a [])
    as (pre & d' & post & Heq & Hfold & Hmax & _).
  - exact Hnan.
  - intros x [<-|[]]. destruct (gt (snd a) (snd a)) eqn:Haa; [|reflexivity].
    assert (Ha : isNaN (snd a) = false) by (apply Hnan; now left).
    now rewrite (gt_asym _ _ Ha Ha Haa) in Haa.
  - intros x [].
  - cbn [app] in Heq. unfold dominantExpression, reduce. rewrite Hfold. f_equal.
    assert (Hd' : In d' (a :: rest))
      by (rewrite Heq; apply in_or_app; right; now left).
    destruct (Hothers d' Hd') as [->|Hgt]; [reflexivity|].
    rewrite Hmax in Hgt; [discriminate|]. rewrite <- Heq. exact Hin.
Qed.

(** A frame with a face on a canvas with a context, once the dominant
    expression is known. *)
Lemma render_dominant (canvas : Canvas) (video : Video) (det : Detection)
  (dominant : string * float) :
  context2d canvas = true ->
  dominantExpression (expressions det) = Ok dominant ->
  render resizeResults measureText canvas video (Some det)
  = (let text := expressionText dominant in
     let x := ((toNumber (videoWidth video) - measureText text) / 2)%float in
     {| width := videoWidth video; height := videoHeight video;
        context2d := true;
        drawn := [DetectionBox
                    (resizeResults det {| dimWidth := videoWidth video;
                                          dimHeight := videoHeight video |});
                  StrokeText text x 50; FillText text x 50] |},
     Scheduled).
Proof.
  intros Hctx Hdom. unfold render. rewrite Hctx. cbn. rewrite Hdom. cbn.
  rewrite Hctx. reflexivity.
Qed.

End RenderFacts.

(** C9: for the expressions [{happy: 0.9, neutral: 0.05, sad: 0.05}], in
    whatever order they are listed, the reduction selects [happy] and the
    frame leaves on the canvas the resized box and the text [happy: 90%],
    stroked and then filled at height 50 and at
    [x = (canvas.width - textWidth) / 2], that is, horizontally centered:
    [canvas.width] is the width of the video as a number. In general,
    whenever one entry is strictly above all others and its hundredfold
    is finite, that entry is selected, and the text is its label, a
    colon, the integer nearest to the hundredfold of its confidence (the
    larger one of two equally near) and a percent sign, centered in the
    same way. The width of the video is below [2^53]. *)
Theorem happy_is_rendered
  (resizeResults : Detection -> Dimensions -> Box) (measureText : string -> float)
  (w h : Z) (stale : list Drawing) (video : Video) (box : Box) :
  (0 <= videoWidth video < 2 ^ 53)%Z ->
  let canvas := {| width := w; height := h; context2d := true; drawn := stale |} in
  let frame det text canvasWidth :=
    let x := ((canvasWidth - measureText text) / 2)%float in
    ({| width := videoWidth video; height := videoHeight video;
        context2d := true;
        drawn := [DetectionBox
                    (resizeResults det {| dimWidth := videoWidth video;
                                          dimHeight := videoHeight video |});
                  StrokeText text x 50; FillText text x 50] |},
     Scheduled) in
  (forall expressions,
      Permutation expressions
        [("happy", 0.9%float); ("neutral", 0.05%float); ("sad", 0.05%float)] ->
      let det := {| detection := box; expressions := expressions |} in
      dominantExpression expressions = Ok ("happy", 0.9%float)
      /\ exists canvasWidth,
          exactly (videoWidth video) (Prim2SF canvasWidth)
          /\ render resizeResults measureText canvas video (Some det)
             = frame det "happy: 90%" canvasWidth)
  /\ (forall expressions label confidence,
        In (label, confidence) expressions ->
        (forall x, In x expressions ->
                   x = (label, confidence) \/ gt confidence (snd x) = true) ->
        isFinite (confidence * 100)%float = true ->
        let det := {| detection := box; expressions := expressions |} in
        dominantExpression expressions = Ok (label, confidence)
        /\ exists percent canvasWidth,
            nearest percent (Prim2SF (confidence * 100)%float)
            /\ exactly (videoWidth video) (Prim2SF canvasWidth)
            /\ render resizeResults measureText canvas video (Some det)
               = frame det (label ++ ": " ++ decimal percent ++ "%") canvasWidth).
Proof.
  intros Hwidth canvas frame.
  assert (General : forall expressions label confidence,
             In (label, confidence) expressions ->
             (forall x, In x expressions ->
                        x = (label, confidence) \/ gt confidence (snd x) = true) ->
             isFinite (confidence * 100)%float = true ->
             dominantExpression expressions = Ok (label, confidence)
             /\ render resizeResults measureText canvas video
                  (Some {| detection := box; expressions := expressions |})
                = frame {| detection := box; expressions := expressions |}
                    (expressionText (label, confidence))
                    (toNumber (videoWidth video))).
  { intros expressions label confidence Hin Hothers Hfin.
    assert (Hdom : dominantExpression expressions = Ok (label, confidence)).
    { apply strictly_highest_is_dominant; trivial.
      now apply finite_hundredfold_not_NaN. }
    split; [exact Hdom|].
    apply (render_dominant resizeResults measureText canvas video
             {| detection := box; expressions := expressions |});
      [reflexivity|exact Hdom]. }
  split.
  - intros expressions Hperm det.
    destruct (General expressions "happy" 0.9%float) as [Hdom Hrender].
    + apply (Permutation_in _ (Permutation_sym Hperm)). now left.
    + intros x Hx. apply (Permutation_in _ Hperm) in Hx.
      destruct Hx as [<-|[<-|[<-|[]]]]; [now left|now right|now right].
    + reflexivity.
    + split; [exact Hdom|]. exists (toNumber (videoWidth video)).
      split; [now apply toNumber_exact|exact Hrender].
  - intros expressions label confidence Hin Hothers Hfin det.
    destruct (General expressions label confidence Hin Hothers Hfin)
      as [Hdom Hrender].
    split; [exact Hdom|].
    destruct (roundedToString_nearest (confidence * 100)%float Hfin)
      as (percent & Hnear & Htext).
    exists percent, (toNumber (videoWidth video)).
    split; [exact Hnear|]. split; [now apply toNumber_exact|].
    subst det. rewrite Hrender. unfold expressionText. cbn [fst snd].
    now rewrite Htext.
Qed.

(** The mapping as the claim lists it, and a video 640 wide. *)
Lemma happy_is_rendered_witness :
  dominantExpression
    [("happy", 0.9%float); ("neutral", 0.05%float); ("sad", 0.05%float)]
  = Ok ("happy", 0.9%float)
  /\ exists canvasWidth,
      exactly 640 (Prim2SF canvasWidth)
      /\ render (fun det _ => detection det) (fun _ => 100%float)
           {| width := 300; height := 150; context2d := true; drawn := [] |}
           {| videoWidth := 640; videoHeight := 480 |}
           (Some {| detection := {| left := 10; top := 20;
                                    boxWidth := 30; boxHeight := 40 |};
                    expressions := [("happy", 0.9%float); ("neutral", 0.05%float);
                                    ("sad", 0.05%float)] |})
         = ({| width := 640; height := 480; context2d := true;
               drawn := [DetectionBox {| left := 10; top := 20;
                                         boxWidth := 30; boxHeight := 40 |};
                         StrokeText "happy: 90%" ((canvasWidth - 100) / 2)%float 50;
                         FillText "happy: 90%" ((canvasWidth - 100) / 2)%float 50] |},
            Scheduled).
Proof.
  apply (happy_is_rendered (fun det _ => detection det) (fun _ => 100%float)
           300 150 [] {| videoWidth := 640; videoHeight := 480 |}
           {| left := 10; top := 20; boxWidth := 30; boxHeight := 40 |}).
  - cbn. lia.
  - apply Permutation_refl.
Defined.

(** C3, as stated, fails: an iteration that finds no face does not touch
    the canvas, because [clearRect] is inside [if (detection)]; the box
    and the text of an earlier frame are still there afterwards. *)
Lemma no_face_keeps_the_old_drawing :
  ~ (forall resizeResults measureText canvas video,
        let after := fst (render resizeResults measureText canvas video None) in
        existsb isBox (drawn after) = false
        /\ existsb isText (drawn after) = false).
Proof.
  intros claim.
  destruct (claim (fun det _ => detection det) (fun _ => 100%float)
                {| width := 640; height := 480; context2d := true;
                   drawn := [DetectionBox {| left := 10; top := 20;
                                             boxWidth := 30; boxHeight := 40 |};
                             StrokeText "happy: 90%" 270 50;
                             FillText "happy: 90%" 270 50] |}
                {| videoWidth := 640; videoHeight := 480 |}) as [Hbox _].
  discriminate Hbox.
Qed.

(** C3, amended: an iteration that finds no face leaves the drawing
    surface as it is, clearing and drawing nothing, and goes on to the
    next frame; an iteration that finds a face clears the entire surface
    before it draws, so that afterwards the surface holds the box and the
    text of this frame and nothing of an earlier one, whatever was there
    before. (Without a 2D context nothing is drawn at all.) *)
Theorem surface_cleared_before_each_draw
  (resizeResults : Detection -> Dimensions -> Box) (measureText : string -> float)
  (canvas : Canvas) (video : Video) (det : Detection) :
  render resizeResults measureText canvas video None = (canvas, Scheduled)
  /\ (context2d canvas = false ->
      render resizeResults measureText canvas video (Some det) = (canvas, Returned))
  /\ (context2d canvas = true ->
      drawn (fst (render resizeResults measureText canvas video (Some det)))
      = DetectionBox (resizeResults det {| dimWidth := videoWidth video;
                                           dimHeight := videoHeight video |})
        :: match dominantExpression (expressions det) with
           | Ok dominant =>
               let text := expressionText dominant in
               let x := ((toNumber (videoWidth video) - measureText text) / 2)%float in
               [StrokeText text x 50; FillText text x 50]
           | Throw => []
           end).
Proof.
  split; [reflexivity|]. split; intros Hctx; unfold render; rewrite Hctx; cbn.
  - reflexivity.
  - destruct (dominantExpression (expressions det)); reflexivity.
Qed.

Lemma surface_cleared_before_each_draw_witness :
  let canvas := {| width := 640; height := 480; context2d := true;
                   drawn := [StrokeText "sad: 70%" 270 50;
                             FillText "sad: 70%" 270 50] |} in
  let video := {| videoWidth := 640; videoHeight := 480 |} in
  let det := {| detection := {| left := 10; top := 20;
                                boxWidth := 30; boxHeight := 40 |};
                expressions := [("happy", 0.75%float); ("sad", 0.25%float)] |} in
  drawn (fst (render (fun d _ => detection d) (fun _ => 100%float)
                canvas video (Some det)))
  = [DetectionBox (detection det);
     StrokeText "happy: 75%" 270 50; FillText "happy: 75%" 270 50].
Proof.
  cbv zeta.
  apply (surface_cleared_before_each_draw (fun d _ => detection d)
           (fun _ => 100%float)
           {| width := 640; height := 480; context2d := true;
              drawn := [StrokeText "sad: 70%" 270 50; FillText "sad: 70%" 270 50] |}
           {| videoWidth := 640; videoHeight := 480 |}
           {| detection := {| left := 10; top := 20; boxWidth := 30; boxHeight := 40 |};
              expressions := [("happy", 0.75%float); ("sad", 0.25%float)] |}).
  reflexivity.
Defined.

(** ** The component [FaceDetection] *)

Section FaceDetectionFacts.

Import FaceDetection.

Variable resizeResults : Detection -> Dimensions -> Box.
Variable measureText : string -> float.

Local Abbreviation step := (FaceDetection.step resizeResults measureText).
Local Abbreviation run := (FaceDetection.run resizeResults measureText).

Ltac unfold_handlers :=
  unfold handleVideoPlay, setIsVideoPlaying_true, setModelsLoaded_true,
    detectionEffect, webcamEffect, cleanupDetection, cleanupModels,
    firstRenderStream, resume, requestAnimationFrame, detectExpressions,
    cancelAnimationFrame, stopTracks in *.

Ltac cases :=
  repeat (cbn; match goal with
               | |- context [match ?x with _ => _ end] => destruct x
               end); cbn.

Lemma run_app (s : State) (a b : list Event) :
  run s (a ++ b) = match run s a with
                   | Some s' => run s' b
                   | None => None
                   end.
Proof.
  revert s. induction a as [|e a IH]; intros s; simpl; [reflexivity|].
  destruct (step s e); [apply IH | reflexivity].
Qed.

Lemma remove_nth_length {A : Type} (i : nat) (l : list A) (x : A) :
  nth_error l i = Some x -> S (List.length (remove_nth i l)) = List.length l.
Proof.
  revert i. induction l as [|a l IH]; intros [|i] H; simpl in *; try discriminate.
  - reflexivity.
  - now rewrite (IH i H).
Qed.


(** No step takes the readiness of the models back. *)
Lemma step_keeps_modelsLoaded (s s' : State) (e : Event) :
  step s e = Some s' -> modelsLoaded s = true -> modelsLoaded s' = true.
Proof.
  intros Hstep Hml. destruct s. cbn in Hml. subst.
  destruct e; cbn in Hstep.
  - destruct loading0; [|discriminate]. injection Hstep as <-.
    destruct (tinyFaceDetector && faceExpressionNet); [|reflexivity].
    unfold setModelsLoaded_true. cbn. now rewrite orb_true_r.
  - destruct requestingMedia0; [discriminate|].
    destruct granted; injection Hstep as <-; [|reflexivity].
    now destruct mounted0.
  - destruct mounted0; [|discriminate]. injection Hstep as <-.
    unfold handleVideoPlay, setIsVideoPlaying_true. cbn.
    destruct isVideoPlaying0; [reflexivity|]. cbn.
    unfold detectionEffect, cleanupDetection. cbn.
    destruct animationFrameId0 as [h|]; [destruct (h =? 0)%nat|]; reflexivity.
  - destruct (nth_error inferences0 i); [|discriminate]. injection Hstep as <-.
    unfold resume. cbn. destruct (render _ _ _ _ _) as [cv []]; cbn; try reflexivity.
    unfold requestAnimationFrame. cbn. now destruct (_ =? _)%nat.
  - destruct (nth_error inferences0 i); [|discriminate]. now injection Hstep as <-.
  - destruct frames0 as [|[h c] rest]; [discriminate|]. injection Hstep as <-.
    unfold detectExpressions. cbn. now destruct (_ || _).
  - destruct mounted0; [|discriminate]. injection Hstep as <-.
    unfold cleanupDetection. cbn.
    destruct animationFrameId0 as [h|]; [destruct (h =? 0)%nat|]; reflexivity.
Qed.


Lemma consistent_mount (v : Video) : consistent (mount v).
Proof.
  unfold consistent, mount; cbn. repeat split; try lia; try easy.
Qed.


Ltac finish :=
  repeat split; try lia; try easy;
  try (match goal with
       | H : _ \/ False |- _ => destruct H as [<-|[]]; reflexivity
       end).

(** Running the detection effect when nothing of the loop is pending. *)
Lemma consistent_detectionEffect (s : State) :
  mounted s = true -> inferences s = [] -> frames s = [] ->
  nextHandle s <> 0%nat ->
  consistent (detectionEffect s).
Proof.
  destruct s; cbn; intros -> -> -> Hnh.
  unfold detectionEffect, cleanupDetection. cbn.
  destruct animationFrameId0 as [h|]; [destruct (h =? 0)%nat|]; cbn;
    unfold detectExpressions; cbn;
    destruct (modelsLoaded0 && isVideoPlaying0) eqn:Hb; cbn;
    try (apply andb_prop in Hb as [-> ->]; cbn);
    unfold consistent; cbn; rewrite ?Hb; cbn; finish.
Qed.

Lemma step_consistent (s s' : State) (e : Event) :
  consistent s -> step s e = Some s' -> consistent s'.
Proof.
  intros Hinv Hstep. destruct e; cbn in Hstep.
  - (* ModelsSettled *)
    destruct (loading s); [|discriminate]. injection Hstep as <-.
    assert (Hl : consistent (set_loading false s)) by (destruct s; exact Hinv).
    destruct (tinyFaceDetector && faceExpressionNet); [|exact Hl].
    unfold setModelsLoaded_true.
    destruct (negb (mounted (set_loading false s)) || modelsLoaded (set_loading false s))
      eqn:Hb; [exact Hl|].
    apply orb_false_elim in Hb as [Hm Hml]. apply negb_false_iff in Hm.
    destruct Hinv as (_ & Hidle & _ & _ & Hnh).
    destruct s; cbn in *. subst. destruct (Hidle eq_refl) as [-> ->].
    now apply consistent_detectionEffect.
  - (* MediaSettled *)
    destruct (requestingMedia s); [discriminate|].
    destruct granted; injection Hstep as <-; [|destruct s; exact Hinv].
    destruct s; cbn. destruct mounted0; exact Hinv.
  - (* VideoPlay *)
    destruct (mounted s) eqn:Hm; [|discriminate]. injection Hstep as <-.
    unfold handleVideoPlay, setIsVideoPlaying_true.
    destruct s; cbn in *. subst. destruct isVideoPlaying0; cbn; [exact Hinv|].
    destruct Hinv as (_ & Hidle & _ & _ & Hnh). cbn in *.
    rewrite andb_false_r in Hidle. destruct (Hidle eq_refl) as [-> ->].
    now apply consistent_detectionEffect.
  - (* InferenceSettled *)
    destruct (nth_error (inferences s) i) as [c|] eqn:Hi; [|discriminate].
    injection Hstep as <-.
    destruct Hinv as (Hone & Hidle & Hinf & Hfr & Hnh).
    destruct s; cbn in *.
    destruct inferences0 as [|c0 [|]]; cbn in *; [now destruct i| |lia].
    destruct frames0; cbn in *; [|lia].
    destruct i as [|[|]]; cbn in Hi; try discriminate. injection Hi as ->.
    destruct (Hinf c (or_introl eq_refl)) as [Hrun Hsaw].
    destruct (modelsLoaded0 && isVideoPlaying0) eqn:Hb;
      [|now destruct (Hidle eq_refl)].
    unfold resume. cbn. destruct (render _ _ _ _ _) as [cv []]; cbn;
      try (unfold consistent; cbn; rewrite Hb; finish).
    unfold requestAnimationFrame. cbn. rewrite Hrun, Nat.eqb_refl.
    unfold consistent; cbn; rewrite Hb.
    repeat split; try lia; try easy;
      match goal with
      | H : _ \/ False |- _ => destruct H as [[= <- <-]|[]]; trivial
      end.
  - (* InferenceFailed *)
    destruct (nth_error (inferences s) i) as [c|] eqn:Hi; [|discriminate].
    injection Hstep as <-.
    destruct Hinv as (Hone & Hidle & Hinf & Hfr & Hnh).
    destruct s; cbn in *.
    destruct inferences0 as [|c0 [|]]; cbn in *; [now destruct i| |lia].
    destruct frames0; cbn in *; [|lia].
    destruct i as [|[|]]; cbn in Hi; try discriminate.
    unfold consistent; cbn. finish.
  - (* AnimationFrame *)
    destruct (frames s) as [|[h c] rest] eqn:Hf; [discriminate|].
    injection Hstep as <-.
    destruct Hinv as (Hone & Hidle & Hinf & Hfr & Hnh).
    destruct s; cbn in *. subst.
    destruct inferences0; cbn in *; [|lia]. destruct rest; cbn in *; [|lia].
    destruct (Hfr h c (or_introl eq_refl)) as (Hrun & Hsaw & _).
    destruct (modelsLoaded0 && isVideoPlaying0) eqn:Hb;
      [|now destruct (Hidle eq_refl)].
    unfold detectExpressions. cbn. rewrite Hsaw. cbn.
    destruct mounted0; cbn; unfold consistent; cbn; rewrite Hb;
      repeat split; try lia; try easy;
      match goal with
      | H : _ \/ False |- _ => destruct H as [<-|[]]; trivial
      end.
  - (* Unmount *)
    destruct (mounted s) eqn:Hm; [|discriminate]. injection Hstep as <-.
    destruct Hinv as (Hone & Hidle & Hinf & Hfr & Hnh).
    unfold cleanupModels, firstRenderStream, cleanupDetection.
    destruct s; cbn in *. subst.
    destruct animationFrameId0 as [h|]; [destruct (h =? 0)%nat|]; cbn;
      unfold consistent; cbn;
      try exact (conj Hone (conj Hidle (conj Hinf (conj Hfr Hnh)))).
    destruct frames0 as [|[h' c'] [|]]; cbn in *; try lia.
    + exact (conj Hone (conj Hidle (conj Hinf (conj Hfr Hnh)))).
    + destruct (Hfr h' c' (or_introl eq_refl)) as (_ & _ & [= ->] & _).
      rewrite Nat.eqb_refl. cbn.
      split; [lia|]. split; [intros Hb; now destruct (Hidle Hb)|].
      split; [exact Hinf|]. split; [intros ? ? []|exact Hnh].
Qed.

Lemma run_consistent (events : list Event) (s s' : State) :
  consistent s -> run s events = Some s' -> consistent s'.
Proof.
  revert s. induction events as [|e events IH]; intros s Hinv Hrun; cbn in Hrun.
  - now injection Hrun as <-.
  - destruct (step s e) as [s1|] eqn:Hstep; [|discriminate].
    exact (IH s1 (step_consistent _ _ _ Hinv Hstep) Hrun).
Qed.


(** Only the settling of the model loads touches [loading] and
    [modelsLoaded], and a failed load leaves [modelsLoaded] alone. *)
Lemma step_loading (s s' : State) (e : Event) :
  step s e = Some s' ->
  (modelsLoaded s' = modelsLoaded s /\ loading s' = loading s)
  \/ (exists tiny expression,
        e = ModelsSettled tiny expression /\ loading s = true /\ loading s' = false
        /\ (tiny && expression = false -> modelsLoaded s' = modelsLoaded s)).
Proof.
  intros Hstep. destruct s. destruct e; cbn in Hstep.
  - right. exists tinyFaceDetector, faceExpressionNet.
    destruct loading0; [|discriminate]. injection Hstep as <-.
    destruct (tinyFaceDetector && faceExpressionNet); cbn.
    + repeat split; try discriminate. unfold_handlers. cases; reflexivity.
    + repeat split.
  - left. destruct requestingMedia0; [discriminate|].
    destruct granted; injection Hstep as <-; [|split; reflexivity].
    destruct mounted0; split; reflexivity.
  - left. destruct mounted0; [|discriminate]. injection Hstep as <-.
    unfold handleVideoPlay, setIsVideoPlaying_true. cbn.
    destruct isVideoPlaying0; cbn; [split; reflexivity|].
    unfold detectionEffect, cleanupDetection. cbn.
    destruct animationFrameId0 as [h|]; [destruct (h =? 0)%nat|]; cbn;
      destruct (modelsLoaded0 && true); split; reflexivity.
  - left. destruct (nth_error inferences0 i); [|discriminate]. injection Hstep as <-.
    unfold resume. cbn. destruct (render _ _ _ _ _) as [cv []]; cbn;
      try (split; reflexivity).
    unfold requestAnimationFrame. cbn. destruct (_ =? _)%nat; split; reflexivity.
  - left. destruct (nth_error inferences0 i); [|discriminate].
    injection Hstep as <-. split; reflexivity.
  - left. destruct frames0 as [|[h c] rest]; [discriminate|]. injection Hstep as <-.
    unfold detectExpressions. cbn. destruct (_ || _); split; reflexivity.
  - left. destruct mounted0; [|discriminate]. injection Hstep as <-.
    unfold cleanupDetection. cbn.
    destruct animationFrameId0 as [h|]; [destruct (h =? 0)%nat|]; split; reflexivity.
Qed.

(** A step that leaves the models unloaded leaves the component idle. *)
Lemma step_idle (s s' : State) (e : Event) :
  idle s -> step s e = Some s' -> modelsLoaded s' = false -> idle s'.
Proof.
  intros (Hml & Hinf & Hfr & Hnh & Hdr) Hstep Hml'.
  destruct s; cbn in *; subst. destruct e; cbn in Hstep.
  - destruct loading0; [|discriminate]. injection Hstep as <-.
    destruct (tinyFaceDetector && faceExpressionNet); [|now repeat split].
    revert Hml'. unfold_handlers. cases; intros; try discriminate; now repeat split.
  - destruct requestingMedia0; [discriminate|].
    destruct granted; injection Hstep as <-; [|now repeat split].
    destruct mounted0; now repeat split.
  - destruct mounted0; [|discriminate]. injection Hstep as <-.
    unfold handleVideoPlay, setIsVideoPlaying_true. cbn.
    destruct isVideoPlaying0; cbn; [now repeat split|].
    unfold detectionEffect, cleanupDetection. cbn.
    destruct animationFrameId0 as [h|]; [destruct (h =? 0)%nat|]; now repeat split.
  - now destruct i.
  - now destruct i.
  - discriminate.
  - destruct mounted0; [|discriminate]. injection Hstep as <-.
    unfold cleanupDetection. cbn.
    destruct animationFrameId0 as [h|]; [destruct (h =? 0)%nat|]; now repeat split.
Qed.

(** Until the model loads settle the component is idle. *)
Lemma run_idle_while_loading (events : list Event) (s s' : State) :
  (loading s = true -> idle s) ->
  run s events = Some s' ->
  loading s' = true -> idle s'.
Proof.
  revert s. induction events as [|e events IH]; intros s Hs Hrun; cbn in Hrun.
  - now injection Hrun as <-.
  - destruct (step s e) as [s1|] eqn:Hstep; [|discriminate].
    apply (IH s1); [|exact Hrun]. intros Hl1.
    destruct (step_loading _ _ _ Hstep) as [[Hml Hl]|(a & b & _ & _ & Hl & _)];
      [|congruence].
    rewrite Hl1 in Hl. symmetry in Hl. specialize (Hs Hl).
    apply (step_idle _ _ _ Hs Hstep). rewrite Hml. apply Hs.
Qed.

(** After a failed load the component stays idle for good. *)
Lemma run_idle_after_failure (events : list Event) (s s' : State) :
  idle s -> loading s = false ->
  run s events = Some s' ->
  idle s' /\ loading s' = false.
Proof.
  revert s. induction events as [|e events IH]; intros s Hs Hl Hrun; cbn in Hrun.
  - injection Hrun as <-. now split.
  - destruct (step s e) as [s1|] eqn:Hstep; [|discriminate].
    destruct (step_loading _ _ _ Hstep) as [[Hml Hl1]|(a & b & _ & Hl1 & _)];
      [|congruence].
    apply (IH s1); [|congruence|exact Hrun].
    apply (step_idle _ _ _ Hs Hstep). rewrite Hml. apply Hs.
Qed.


(** A frame is requested only by the continuation of an inference, after
    it has rendered the result of that inference. *)
Lemma step_requests_frame (s s' : State) (e : Event) :
  step s e = Some s' -> frames s = [] -> frames s' <> [] ->
  exists i found,
    e = InferenceSettled i found
    /\ canvas s' = fst (render resizeResults measureText (canvas s) (video s) found).
Proof.
  intros Hstep Hfr Hfr'. destruct s; cbn in *; subst.
  destruct e; cbn in Hstep.
  - exfalso. destruct loading0; [|discriminate]. injection Hstep as <-.
    revert Hfr'. unfold_handlers. cases; intros H; now apply H.
  - exfalso. destruct requestingMedia0; [discriminate|].
    destruct granted; injection Hstep as <-; revert Hfr'; cases; intros H; now apply H.
  - exfalso. destruct mounted0; [|discriminate]. injection Hstep as <-.
    revert Hfr'. unfold_handlers. cases; intros H; now apply H.
  - exists i, found. split; [reflexivity|].
    destruct (nth_error inferences0 i); [|discriminate]. injection Hstep as <-.
    unfold_handlers. cbn. destruct (render _ _ _ _ _) as [cv []]; cases; reflexivity.
  - exfalso. destruct (nth_error inferences0 i); [|discriminate].
    injection Hstep as <-. now apply Hfr'.
  - discriminate.
  - exfalso. destruct mounted0; [|discriminate]. injection Hstep as <-.
    revert Hfr'. unfold_handlers. cases; intros H; now apply H.
Qed.

(** After the unmount every callback of the loop uses up pending work:
    the continuation of an inference may still draw and request a frame,
    the callback of a frame returns at its guard. *)
Lemma step_unmounted (s s' : State) (e : Event) :
  mounted s = false -> step s e = Some s' ->
  mounted s' = false /\ video s' = video s
  /\ ((if isLoopCallback e then 1 else 0) + pendingWork s' <= pendingWork s)%nat
  /\ (List.length (inferences s') <= List.length (inferences s))%nat
  /\ (canvas s' = canvas s
      \/ exists i found,
           e = InferenceSettled i found
           /\ S (List.length (inferences s')) = List.length (inferences s)
           /\ canvas s' = fst (render resizeResults measureText (canvas s) (video s) found)).
Proof.
  intros Hm Hstep. destruct s; cbn in *; subst.
  destruct e; cbn in Hstep.
  - destruct loading0; [|discriminate]. injection Hstep as <-.
    unfold_handlers; unfold pendingWork. cases; repeat split; auto.
  - destruct requestingMedia0; [discriminate|].
    destruct granted; injection Hstep as <-; unfold pendingWork; cbn;
      repeat split; auto.
  - discriminate.
  - destruct (nth_error inferences0 i) as [c|] eqn:Hi; [|discriminate].
    injection Hstep as <-. pose proof (remove_nth_length _ _ _ Hi) as Hlen.
    unfold_handlers; unfold pendingWork. cbn.
    destruct (render _ _ _ _ _) as [cv completion] eqn:Hr.
    assert (Hcv : cv = fst (render resizeResults measureText canvas0 video0 found))
      by now rewrite Hr.
    destruct completion; cases; rewrite ?length_app; cbn;
      (split; [reflexivity|]); (split; [reflexivity|]); (split; [lia|]);
      (split; [lia|]); right; now exists i, found.
  - destruct (nth_error inferences0 i) as [c|] eqn:Hi; [|discriminate].
    injection Hstep as <-. pose proof (remove_nth_length _ _ _ Hi) as Hlen.
    unfold pendingWork. cbn.
    split; [reflexivity|]. split; [reflexivity|]. split; [lia|].
    split; [lia|now left].
  - destruct frames0 as [|[h c] rest]; [discriminate|]. injection Hstep as <-.
    unfold_handlers; unfold pendingWork. cbn. repeat split; auto; lia.
  - discriminate.
Qed.

Lemma run_unmounted (events : list Event) (s s' : State) :
  mounted s = false -> run s events = Some s' ->
  (List.length (filter isLoopCallback events) + pendingWork s' <= pendingWork s)%nat
  /\ (inferences s = [] -> canvas s' = canvas s)
  /\ ((List.length (inferences s) <= 1)%nat ->
      canvas s' = canvas s
      \/ exists found,
           canvas s' = fst (render resizeResults measureText (canvas s) (video s) found)).
Proof.
  revert s. induction events as [|e events IH]; intros s Hm Hrun; cbn in Hrun.
  - injection Hrun as <-. cbn. repeat split; auto; lia.
  - destruct (step s e) as [s1|] eqn:Hstep; [|discriminate].
    destruct (step_unmounted _ _ _ Hm Hstep) as (Hm1 & Hv & Hwork & Hinf & Hdraw).
    destruct (IH s1 Hm1 Hrun) as (Hwork' & Hquiet' & Hdraw').
    split; [|split].
    + cbn [filter]. destruct (isLoopCallback e); cbn [List.length]; lia.
    + intros Hnil. rewrite Hnil in Hinf. cbn in Hinf.
      destruct Hdraw as [Hc|(i & found & _ & Hlen & _)];
        [|rewrite Hnil in Hlen; discriminate].
      rewrite <- Hc. apply Hquiet'. destruct (inferences s1); [reflexivity|].
      cbn in Hinf. lia.
    + intros Hone. destruct Hdraw as [Hc|(i & found & _ & Hlen & Hc)].
      * rewrite <- Hc, <- Hv. apply Hdraw'. lia.
      * right. exists found. rewrite <- Hc. apply Hquiet'.
        destruct (inferences s1); [reflexivity|]. cbn in Hlen. lia.
Qed.

(** The unmount cancels the pending frame and stops no track. *)
Lemma step_Unmount (s s0 : State) :
  consistent s -> step s Unmount = Some s0 ->
  mounted s0 = false /\ frames s0 = [] /\ inferences s0 = inferences s
  /\ canvas s0 = canvas s /\ liveTracks s0 = liveTracks s.
Proof.
  intros (Hone & _ & _ & Hfr & _) Hstep. cbn in Hstep.
  destruct (mounted s); [|discriminate]. injection Hstep as <-.
  unfold_handlers. destruct s; cbn in *.
  destruct frames0 as [|[h c] [|]]; cbn in *; try lia.
  - cases; now repeat split.
  - destruct (Hfr h c (or_introl eq_refl)) as (_ & _ & -> & Hh).
    apply Nat.eqb_neq in Hh. rewrite Hh. cbn. rewrite Nat.eqb_refl. cbn.
    now repeat split.
Qed.

End FaceDetectionFacts.

Import FaceDetection.

(** C4: once the models are ready they are ready in every later state,
    so readiness goes from false to true at most once and never back;
    while the loads have not settled the models are not ready; and when
    one of the two loads fails, then in every state from there on the
    models are not ready, the loading overlay is shown, no inference is
    awaited, no animation frame is or ever was requested, and nothing is
    drawn. *)
Theorem readiness_is_one_way_and_fail_closed
  (resizeResults : Detection -> Dimensions -> Box) (measureText : string -> float) :
  (forall s events s',
      run resizeResults measureText s events = Some s' ->
      modelsLoaded s = true -> modelsLoaded s' = true)
  /\ (forall video events s,
        run resizeResults measureText (mount video) events = Some s ->
        loading s = true -> modelsLoaded s = false)
  /\ (forall video before tiny expression after s,
        tiny && expression = false ->
        run resizeResults measureText (mount video)
          (before ++ ModelsSettled tiny expression :: after) = Some s ->
        modelsLoaded s = false /\ showsLoading s = true
        /\ inferences s = [] /\ frames s = [] /\ nextHandle s = 1%nat
        /\ drawn (canvas s) = []).
Proof.
  assert (Hmount : forall video, idle (mount video)) by (intros; now repeat split).
  split; [|split].
  - intros s events. revert s.
    induction events as [|e events IH]; intros s s' Hrun Hml; cbn in Hrun.
    + now injection Hrun as <-.
    + destruct (step resizeResults measureText s e) as [s1|] eqn:Hstep;
        [|discriminate].
      apply (IH s1 s' Hrun).
      exact (step_keeps_modelsLoaded _ _ _ _ _ Hstep Hml).
  - intros video events s Hrun Hl.
    apply (run_idle_while_loading resizeResults measureText events
             (mount video) s); trivial.
  - intros video before tiny expression after s Hfail Hrun.
    rewrite run_app in Hrun.
    destruct (run resizeResults measureText (mount video) before) as [s1|] eqn:H1;
      [|discriminate].
    cbn [run] in Hrun.
    destruct (step resizeResults measureText s1 (ModelsSettled tiny expression))
      as [s2|] eqn:H2; [|discriminate].
    destruct (step_loading _ _ _ _ _ H2) as [[Hml Hl]|(a & b & [= <- <-] & Hl1 & Hl2 & Hml)].
    { cbn in H2. destruct (loading s1) eqn:Hl1; [|discriminate].
      injection H2 as <-. rewrite Hfail in Hl. destruct s1; discriminate. }
    assert (Hidle1 : idle s1)
      by (apply (run_idle_while_loading resizeResults measureText before
                   (mount video) s1); trivial).
    assert (Hidle2 : idle s2).
    { apply (step_idle _ _ _ _ _ Hidle1 H2). rewrite (Hml Hfail). apply Hidle1. }
    destruct (run_idle_after_failure _ _ after s2 s Hidle2 Hl2 Hrun)
      as [(Hm & Hi & Hf & Hn & Hd) _].
    unfold showsLoading. rewrite Hm. now repeat split.
Qed.

Lemma readiness_is_one_way_and_fail_closed_witness :
  exists s,
    run (fun d _ => detection d) (fun _ => 100%float)
      (mount {| videoWidth := 640; videoHeight := 480 |})
      ([VideoPlay] ++ ModelsSettled true false :: [VideoPlay; Unmount]) = Some s
    /\ modelsLoaded s = false /\ showsLoading s = true
    /\ inferences s = [] /\ frames s = [] /\ nextHandle s = 1%nat
    /\ drawn (canvas s) = [].
Proof.
  eexists. split; [vm_compute; reflexivity|].
  apply (proj2 (proj2 (readiness_is_one_way_and_fail_closed
                         (fun d _ => detection d) (fun _ => 100%float)))
           {| videoWidth := 640; videoHeight := 480 |}
           [VideoPlay] true false [VideoPlay; Unmount]).
  - reflexivity.
  - vm_compute. reflexivity.
Defined.

(** C5: in every state the component reaches, at most one inference is
    awaited and none while a frame is pending, so two inferences are
    never in flight; and a frame is requested only by the step that
    receives the result of the awaited inference, after rendering that
    result, when no inference is in flight any more. *)
Theorem one_inference_in_flight
  (resizeResults : Detection -> Dimensions -> Box) (measureText : string -> float)
  (video : Video) (events : list Event) (s : State) :
  run resizeResults measureText (mount video) events = Some s ->
  (List.length (inferences s) + List.length (frames s) <= 1)%nat
  /\ (forall e s',
        step resizeResults measureText s e = Some s' ->
        frames s = [] -> frames s' <> [] ->
        exists i found,
          e = InferenceSettled i found
          /\ canvas s' = fst (render resizeResults measureText
                                (canvas s) (FaceDetection.video s) found)
          /\ inferences s' = []).
Proof.
  intros Hrun.
  pose proof (run_consistent resizeResults measureText events _ _
                (consistent_mount video) Hrun) as Hs.
  split; [apply Hs|].
  intros e s' Hstep Hfr Hfr'.
  destruct (step_requests_frame _ _ _ _ _ Hstep Hfr Hfr') as (i & found & -> & Hc).
  exists i, found. repeat split; trivial.
  destruct (step_consistent _ _ _ _ _ Hs Hstep) as (Hone & _).
  destruct (frames s'); [congruence|].
  destruct (inferences s'); [reflexivity|]. cbn in Hone. lia.
Qed.

Lemma one_inference_in_flight_witness :
  exists s,
    run (fun d _ => detection d) (fun _ => 100%float)
      (mount {| videoWidth := 640; videoHeight := 480 |})
      [ModelsSettled true true; MediaSettled (Some 1%nat); VideoPlay;
       InferenceSettled 0 None; AnimationFrame] = Some s
    /\ inferences s = [{| effectRun := 2; sawVideoPlaying := true |}]
    /\ (List.length (inferences s) + List.length (frames s) <= 1)%nat.
Proof.
  eexists. split; [vm_compute; reflexivity|]. split; [reflexivity|].
  apply (one_inference_in_flight (fun d _ => detection d) (fun _ => 100%float)
           {| videoWidth := 640; videoHeight := 480 |}
           [ModelsSettled true true; MediaSettled (Some 1%nat); VideoPlay;
            InferenceSettled 0 None; AnimationFrame]).
  vm_compute. reflexivity.
Defined.

(** C6, as stated, fails: when the view is unmounted while an inference
    is awaited there is no frame to cancel, and the continuation of the
    inference still runs when it settles: it draws on the canvas it
    holds and requests another frame. *)
Lemma inference_in_flight_outlives_unmount :
  ~ (forall resizeResults measureText video events s e s',
        run resizeResults measureText (mount video) events = Some s ->
        mounted s = false ->
        step resizeResults measureText s e = Some s' ->
        isLoopCallback e = false /\ canvas s' = canvas s).
Proof.
  intros claim.
  assert (H : exists s s',
             run (fun d _ => detection d) (fun _ => 100%float)
               (mount {| videoWidth := 640; videoHeight := 480 |})
               [ModelsSettled true true; MediaSettled (Some 1%nat); VideoPlay;
                Unmount] = Some s
             /\ mounted s = false
             /\ step (fun d _ => detection d) (fun _ => 100%float) s
                  (InferenceSettled 0
                     (Some {| detection := {| left := 10; top := 20;
                                              boxWidth := 30; boxHeight := 40 |};
                              expressions := [("happy", 0.75%float);
                                              ("sad", 0.25%float)] |}))
                = Some s').
  { eexists _, _. split; [vm_compute; reflexivity|].
    split; [reflexivity|vm_compute; reflexivity]. }
  destruct H as (s & s' & Hrun & Hm & Hstep).
  destruct (claim _ _ _ _ _ _ _ Hrun Hm Hstep) as [Hcallback _].
  discriminate Hcallback.
Qed.

(** C6, amended: the unmount cancels the pending scheduled frame, and
    when no inference is awaited at that moment no callback of the loop
    runs and nothing is drawn afterwards. When an inference is awaited
    its continuation still runs once after the unmount, drawing its
    result and requesting one more frame whose callback returns at its
    guard: at most two callbacks run, no inference is started, and the
    canvas is either as it was or shows the rendering of that one
    result. *)
Theorem unmount_ends_the_loop
  (resizeResults : Detection -> Dimensions -> Box) (measureText : string -> float)
  (video : Video) (events after : list Event) (s s0 s' : State) :
  run resizeResults measureText (mount video) events = Some s ->
  step resizeResults measureText s Unmount = Some s0 ->
  run resizeResults measureText s0 after = Some s' ->
  frames s0 = [] /\ (List.length (inferences s0) <= 1)%nat
  /\ (List.length (filter isLoopCallback after) + pendingWork s'
      <= 2 * List.length (inferences s0))%nat
  /\ (inferences s0 = [] -> canvas s' = canvas s0)
  /\ (canvas s' = canvas s0
      \/ exists found,
           canvas s' = fst (render resizeResults measureText
                              (canvas s0) (FaceDetection.video s0) found)).
Proof.
  intros Hrun Hun Hafter.
  pose proof (run_consistent resizeResults measureText events _ _
                (consistent_mount video) Hrun) as Hs.
  destruct (step_Unmount _ _ _ _ Hs Hun) as (Hm & Hfr & Hinf & _ & _).
  assert (Hone : (List.length (inferences s0) <= 1)%nat).
  { rewrite Hinf. destruct Hs as (Hone & _). lia. }
  destruct (run_unmounted _ _ after s0 s' Hm Hafter) as (Hwork & Hquiet & Hdraw).
  split; [exact Hfr|]. split; [exact Hone|]. split; [|split].
  - unfold pendingWork in *. rewrite Hfr in Hwork. cbn [List.length] in Hwork. lia.
  - exact Hquiet.
  - exact (Hdraw Hone).
Qed.

Lemma unmount_ends_the_loop_witness :
  exists s s0 s',
    run (fun d _ => detection d) (fun _ => 100%float)
      (mount {| videoWidth := 640; videoHeight := 480 |})
      [ModelsSettled true true; VideoPlay; InferenceSettled 0 None] = Some s
    /\ step (fun d _ => detection d) (fun _ => 100%float) s Unmount = Some s0
    /\ run (fun d _ => detection d) (fun _ => 100%float) s0
         [MediaSettled (Some 1%nat)] = Some s'
    /\ frames s = [(1%nat, {| effectRun := 2; sawVideoPlaying := true |})]
    /\ frames s0 = [] /\ canvas s' = canvas s0.
Proof.
  assert (H : exists s s0 s',
             run (fun d _ => detection d) (fun _ => 100%float)
               (mount {| videoWidth := 640; videoHeight := 480 |})
               [ModelsSettled true true; VideoPlay; InferenceSettled 0 None] = Some s
             /\ step (fun d _ => detection d) (fun _ => 100%float) s Unmount = Some s0
             /\ run (fun d _ => detection d) (fun _ => 100%float) s0
                  [MediaSettled (Some 1%nat)] = Some s'
             /\ frames s = [(1%nat, {| effectRun := 2; sawVideoPlaying := true |})]
             /\ inferences s0 = []).
  { eexists _, _, _. split; [vm_compute; reflexivity|].
    split; [vm_compute; reflexivity|]. split; [vm_compute; reflexivity|].
    split; reflexivity. }
  destruct H as (s & s0 & s' & Hrun & Hun & Hafter & Hfr & Hinf).
  exists s, s0, s'.
  destruct (unmount_ends_the_loop _ _ _ _ _ _ _ _ Hrun Hun Hafter)
    as (Hfr0 & _ & _ & Hquiet & _).
  repeat split; trivial. now apply Hquiet.
Defined.

(** ** The streams of both components *)

(** The unmount of [FaceDetection] stops no track, in any state: the
    cleanup looks at the [stream] of the first render. *)
Lemma FaceDetection_unmount_keeps_tracks
  (resizeResults : Detection -> Dimensions -> Box) (measureText : string -> float)
  (s s0 : State) :
  step resizeResults measureText s Unmount = Some s0 ->
  liveTracks s0 = liveTracks s.
Proof.
  cbn. destruct (mounted s); [|discriminate]. intros [= <-].
  unfold cleanupModels, firstRenderStream, cleanupDetection, cancelAnimationFrame.
  destruct s; cbn. destruct animationFrameId0 as [h|]; [destruct (h =? 0)%nat|];
    reflexivity.
Qed.

(** The same for [WebcamCapture]. *)
Lemma WebcamCapture_unmount_keeps_tracks (s s0 : WebcamCapture.State) :
  WebcamCapture.step s WebcamCapture.Unmount = Some s0 ->
  WebcamCapture.liveTracks s0 = WebcamCapture.liveTracks s.
Proof.
  cbn. destruct (WebcamCapture.mounted s); [|discriminate]. now intros [= <-].
Qed.

(** [Retake Photo] does stop the tracks of the stream the component
    holds before it asks for a new one. *)
Lemma WebcamCapture_retake_stops_held (s s1 : WebcamCapture.State) (st : nat) :
  WebcamCapture.step s WebcamCapture.Retake = Some s1 ->
  WebcamCapture.stream s = Some st ->
  ~ In st (WebcamCapture.liveTracks s1).
Proof.
  cbn. destruct (_ && _); [|discriminate]. intros [= <-] Hst.
  unfold WebcamCapture.startVideo. cbn. rewrite Hst. cbn.
  intros Hin. apply filter_In in Hin as [_ Hne].
  now rewrite Nat.eqb_refl in Hne.
Qed.

(** C7 on the code: in both components the stream that the camera
    granted is still live after the view has been unmounted. *)
Theorem unmount_leaves_the_camera_on
  (resizeResults : Detection -> Dimensions -> Box) (measureText : string -> float)
  (video : Video) (st : nat) :
  (exists s,
      run resizeResults measureText (mount video)
        [ModelsSettled true true; MediaSettled (Some st); Unmount] = Some s
      /\ mounted s = false /\ stream s = Some st /\ liveTracks s = [st])
  /\ (exists s,
        WebcamCapture.run WebcamCapture.mount
          [WebcamCapture.MediaSettled (Some st); WebcamCapture.Unmount] = Some s
        /\ WebcamCapture.mounted s = false
        /\ WebcamCapture.stream s = Some st
        /\ WebcamCapture.liveTracks s = [st]).
Proof.
  split; eexists; (split; [vm_compute; reflexivity|]); repeat split.
Qed.

(** * Further properties of the code *)

(** ** The route handler, beyond its claims *)

Section SaveImageMore.

Import SaveImage.

Lemma strip_literal_some (p s r : string) :
  strip_literal p s = Some r -> s = p ++ r.
Proof.
  revert s. induction p as [|a p IH]; intros s H; simpl in H.
  - now injection H as ->.
  - destruct s as [|b s]; [discriminate|].
    destruct (Ascii.eqb_spec a b) as [->|]; [|discriminate].
    simpl. now rewrite (IH s H).
Qed.

Lemma skip_word_split (s : string) :
  exists w, s = w ++ skip_word s /\ all_chars is_word_char w = true.
Proof.
  induction s as [|c s (w & Hs & Hw)]; simpl.
  - now exists "".
  - destruct (is_word_char c) eqn:Hc.
    + exists (String c w). simpl. now rewrite Hc, Hw, <- Hs.
    + now exists "".
Qed.

Lemma word_matches (w : string) :
  w <> "" -> all_chars is_word_char w = true ->
  matches (Plus (Chr is_word_char)) w.
Proof.
  induction w as [|c w IH]; [congruence|]. intros _ H. simpl in H.
  apply andb_prop in H as [Hc Hw].
  destruct w as [|c' w'].
  - apply M_Plus1. now constructor.
  - apply (M_PlusS _ (String c "") (String c' w')).
    + now constructor.
    + apply IH; [discriminate | exact Hw].
Qed.

Lemma length_append (a b : string) :
  String.length (a ++ b) = (String.length a + String.length b)%nat.
Proof. induction a as [|c a IH]; simpl; [reflexivity | now rewrite IH]. Qed.

Lemma matches_prefix_nonempty (prefix : string) :
  matches data_url_prefix_regex prefix -> prefix <> "".
Proof.
  intros H. inversion H as [| |r1 r2 s1 s2 H1 H2| | | |]; subst.
  inversion H1; subst. discriminate.
Qed.

(** X1: the replacement removes nothing but a match of the pattern at the
    start of the string: either the string begins with a match of
    [^data:image\/\w+;base64,] and the result is what follows it, or no
    prefix of the string matches and the string is returned unchanged. *)
Theorem replace_removes_exactly_a_match (image : string) :
  (exists prefix,
      matches data_url_prefix_regex prefix
      /\ image = prefix ++ replace_data_url_prefix image)
  \/ (replace_data_url_prefix image = image
      /\ forall prefix rest,
           image = prefix ++ rest -> ~ matches data_url_prefix_regex prefix).
Proof.
  assert (Hno : replace_data_url_prefix image = image ->
                forall prefix rest,
                  image = prefix ++ rest -> ~ matches data_url_prefix_regex prefix).
  { intros Hsame prefix rest Himg Hm.
    pose proof (replace_strips prefix rest Hm) as Hr.
    rewrite <- Himg, Hsame in Hr.
    apply (f_equal String.length) in Himg.
    rewrite Hr, length_append in Himg.
    apply matches_prefix_nonempty in Hm. destruct prefix; [congruence|].
    simpl in Himg. lia. }
  unfold replace_data_url_prefix in *.
  destruct (strip_literal "data:image/" image) as [rest|] eqn:H1;
    [|right; split; [reflexivity|now apply Hno]].
  destruct rest as [|c rest]; [right; split; [reflexivity|now apply Hno]|].
  destruct (is_word_char c) eqn:Hc;
    [|right; split; [reflexivity|now apply Hno]].
  destruct (strip_literal ";base64," (skip_word (String c rest))) as [payload|] eqn:H2;
    [|right; split; [reflexivity|now apply Hno]].
  left. cbn [skip_word] in H2. rewrite Hc in H2.
  apply strip_literal_some in H1, H2.
  destruct (skip_word_split rest) as (w & Hw & Hall).
  exists ("data:image/" ++ String c w ++ ";base64,"). split.
  - apply M_Cat; [constructor|]. apply M_Cat; [|constructor].
    apply word_matches; [discriminate|]. simpl. now rewrite Hc.
  - rewrite H1, Hw at 1. rewrite H2. simpl. now rewrite append_assoc.
Qed.


Lemma byte_bounded (b : byte) : (Byte.to_N b < 256)%N.
Proof. pose proof (Byte.to_N_bounded b). lia. Qed.

Lemma to_N_inj (a b : byte) : Byte.to_N a = Byte.to_N b -> a = b.
Proof.
  intros H. pose proof (Byte.of_to_N a) as Ha. rewrite H, Byte.of_to_N in Ha.
  now injection Ha.
Qed.

Lemma hex_digit_inj (n m : N) :
  (n < 16)%N -> (m < 16)%N -> hex_digit n = hex_digit m -> n = m.
Proof.
  intros Hn Hm H. apply (f_equal N_of_ascii) in H. unfold hex_digit in H.
  destruct (N.ltb_spec n 10), (N.ltb_spec m 10);
    rewrite !N_ascii_embedding in H by lia; lia.
Qed.

Lemma toHex_inj (a b : list byte) : toHex a = toHex b -> a = b.
Proof.
  revert b. induction a as [|x a IH]; intros [|y b] H; simpl in H;
    try discriminate; [reflexivity|].
  injection H as Hhi Hlo Hrest.
  pose proof (byte_bounded x). pose proof (byte_bounded y).
  apply hex_digit_inj in Hhi; [|apply N.Div0.div_lt_upper_bound; lia ..].
  apply hex_digit_inj in Hlo; [|apply N.mod_lt; lia ..].
  f_equal; [|now apply IH].
  apply to_N_inj.
  rewrite (N.div_mod (Byte.to_N x) 16), (N.div_mod (Byte.to_N y) 16) by lia.
  now rewrite Hhi, Hlo.
Qed.

Lemma append_cancel_l (a b c : string) : a ++ b = a ++ c -> b = c.
Proof. induction a as [|x a IH]; simpl; intros H; [exact H|]. injection H as H. auto. Qed.

Lemma append_cancel_r (a b c : string) : a ++ c = b ++ c -> a = b.
Proof.
  revert b. induction a as [|x a IH]; intros [|y b] H; simpl in H.
  - reflexivity.
  - apply (f_equal String.length) in H. simpl in H. rewrite length_append in H. lia.
  - apply (f_equal String.length) in H. simpl in H. rewrite length_append in H. lia.
  - injection H as -> H. f_equal. now apply IH.
Qed.

(** X2: the name of the saved file determines the random bytes it was
    made from: two requests are written to the same path only when
    [crypto.randomBytes] returned the same bytes for both. *)
Theorem same_path_same_random (cwd : string) (r1 r2 : list byte) :
  join (publicPath cwd) (toHex r1 ++ ".png")
  = join (publicPath cwd) (toHex r2 ++ ".png") ->
  r1 = r2.
Proof.
  unfold join. intros H. apply append_cancel_l, append_cancel_l in H.
  now apply toHex_inj, (append_cancel_r _ _ ".png").
Qed.

Lemma same_path_same_random_witness :
  [Byte.x01; Byte.xfe] = [Byte.x01; Byte.xfe].
Proof.
  apply (same_path_same_random "/srv/app" [Byte.x01; Byte.xfe] [Byte.x01; Byte.xfe]).
  reflexivity.
Defined.



Import DataUrl.

Lemma unbase64_base64_char (n : N) :
  (n < 64)%N ->
  unbase64 (base64_char n) = Some n
  /\ (N_of_ascii (base64_char n) =? 61)%N = false.
Proof.
  intros H. destruct n as [|p]; [split; reflexivity|].
  do 6 (destruct p as [p|p|]; try (split; reflexivity); try lia).
Qed.

Lemma sextets_cons (n : N) (s : string) :
  (n < 64)%N -> sextets (String (base64_char n) s) = n :: sextets s.
Proof.
  intros H. destruct (unbase64_base64_char n H) as [Hu Hp].
  cbn [sextets]. now rewrite Hp, Hu.
Qed.

Lemma sextets_pad (s : string) : sextets (String "="%char s) = [].
Proof. reflexivity. Qed.

Lemma octet_to_N (b : byte) : octet (Byte.to_N b) = b.
Proof. destruct b; reflexivity. Qed.

Lemma octet_eq (n : N) (b : byte) : (n mod 256)%N = Byte.to_N b -> octet n = b.
Proof.
  intros H. rewrite <- (octet_to_N b), <- H. unfold octet.
  now rewrite N.Div0.mod_mod.
Qed.

Ltac euclid := zify; Z.to_euclidean_division_equations; lia.

Lemma Buffer_from_base64_base64_upto (n : nat) (bytes : list byte) :
  (List.length bytes <= n)%nat -> Buffer_from_base64 (base64 bytes) = bytes.
Proof.
  revert bytes. unfold Buffer_from_base64.
  induction n as [|n IH]; intros bytes Hlen.
  - destruct bytes; [reflexivity|simpl in Hlen; lia].
  - destruct bytes as [|x [|y [|z rest]]]; [reflexivity| | |].
    + pose proof (byte_bounded x). cbn [base64].
      do 2 (rewrite sextets_cons by euclid). rewrite sextets_pad. cbn [octets].
      f_equal. apply octet_eq. euclid.
    + pose proof (byte_bounded x). pose proof (byte_bounded y). cbn [base64].
      do 3 (rewrite sextets_cons by euclid). rewrite sextets_pad. cbn [octets].
      f_equal; [|f_equal]; apply octet_eq; euclid.
    + pose proof (byte_bounded x). pose proof (byte_bounded y).
      pose proof (byte_bounded z). cbn [base64].
      do 4 (rewrite sextets_cons by euclid). cbn [octets].
      rewrite IH by (simpl in Hlen; lia).
      f_equal; [|f_equal; [|f_equal]]; apply octet_eq; euclid.
Qed.

Lemma Buffer_from_base64_base64 (bytes : list byte) :
  Buffer_from_base64 (base64 bytes) = bytes.
Proof. exact (Buffer_from_base64_base64_upto _ bytes (le_n _)). Qed.

Lemma data_url_decodes (width height : Z) (png : list byte) :
  width <> 0%Z -> height <> 0%Z ->
  Buffer_from_base64 (replace_data_url_prefix (toDataURL width height png)) = png.
Proof.
  intros Hw Hh. unfold toDataURL.
  apply Z.eqb_neq in Hw, Hh. rewrite Hw, Hh. cbn [orb].
  change "data:image/png;base64," with ("data:image/" ++ "png" ++ ";base64,").
  rewrite !append_assoc.
  rewrite <- (append_assoc "data:image/" "png"), <- (append_assoc _ ";base64,").
  rewrite replace_strips; [apply Buffer_from_base64_base64|].
  rewrite append_assoc. apply M_Cat; [constructor|].
  apply M_Cat; [|constructor]. now apply word_matches.
Qed.

(** X4: Node's decoding undoes the browser's encoding: the bytes that
    [Buffer.from(..., "base64")] makes of the base64 text of any bytes
    are those bytes, and so the bytes decoded from the data URL of a
    canvas with area, once the prefix is replaced, are the PNG file
    itself. *)
Theorem decoding_the_data_url_gives_the_png (width height : Z) (png : list byte) :
  Buffer_from_base64 (base64 png) = png
  /\ (width <> 0%Z -> height <> 0%Z ->
      Buffer_from_base64 (replace_data_url_prefix (toDataURL width height png))
      = png).
Proof.
  split; [apply Buffer_from_base64_base64 | apply data_url_decodes].
Qed.

Lemma decoding_the_data_url_gives_the_png_witness :
  Buffer_from_base64
    (replace_data_url_prefix
       (toDataURL 640 480 [Byte.x89; Byte.x50; Byte.x4e; Byte.x47]))
  = [Byte.x89; Byte.x50; Byte.x4e; Byte.x47].
Proof.
  apply (decoding_the_data_url_gives_the_png 640 480
           [Byte.x89; Byte.x50; Byte.x4e; Byte.x47]); discriminate.
Defined.

End SaveImageMore.

(** ** Saving a captured photo *)

Section PhotoFlowFacts.

Import SaveImage DataUrl PhotoFlow.

Variable cwd : string.
Variable writable : string -> bool.
Variable partial : string -> option nat.

Local Abbreviation step := (PhotoFlow.step cwd writable partial).
Local Abbreviation run := (PhotoFlow.run cwd writable partial).
Local Abbreviation consistent := (PhotoFlow.consistent cwd).
Local Abbreviation stored := (PhotoFlow.stored cwd).

(** What the server does with the request of [savePhoto]. *)
Lemma POST_requestBody (fs : files) (random : list byte) (image : string) :
  POST cwd writable partial fs random (requestBody image) =
    let fileName := toHex random ++ ".png" in
    let path := join (publicPath cwd) fileName in
    if writable path
    then ({| body := Saved fileName; status := 200 |},
          (path, Buffer_from_base64 (replace_data_url_prefix image)) :: fs)
    else (failure,
          match partial path with
          | Some n =>
              (path, firstn n (Buffer_from_base64 (replace_data_url_prefix image)))
              :: fs
          | None => fs
          end).
Proof. apply POST_string_image. reflexivity. Qed.

(** The server never removes a file. *)
Lemma step_disk_grows (s s' : State) (e : Event) :
  step s e = Some s' -> forall f, In f (disk s) -> In f (disk s').
Proof.
  intros Hstep f Hf. destruct e; cbn in Hstep.
  - destruct (reviewing s); [discriminate|]. now injection Hstep as <-.
  - destruct (_ && _); [|discriminate].
    destruct (capturedImage s); [|discriminate]. now injection Hstep as <-.
  - destruct (nth_error _ _) as [image|]; [|discriminate].
    rewrite POST_requestBody in Hstep. cbv zeta in Hstep.
    destruct (writable _); [|destruct (partial _)]; injection Hstep as <-;
      cbn; auto.
  - destruct (nth_error _ _); [|discriminate]. now injection Hstep as <-.
  - destruct (reviewing s); [|discriminate]. now injection Hstep as <-.
Qed.

Lemma flow_consistent_mount (fs : files) : consistent (mount fs).
Proof.
  repeat split; cbn; try lia; try discriminate; congruence.
Qed.

Lemma flow_step_consistent (s s' : State) (e : Event) :
  consistent s -> step s e = Some s' -> consistent s'.
Proof.
  intros (Hone & Hsaving & Hname) Hstep.
  assert (Hgrow := step_disk_grows _ _ _ Hstep).
  destruct e; cbn in Hstep.
  - destruct (reviewing s); [discriminate|]. injection Hstep as <-.
    repeat split; cbn; trivial; try apply Hsaving. discriminate.
  - destruct (reviewing s && negb (saveDisabled s)) eqn:Hen; [|discriminate].
    destruct (capturedImage s) as [image|]; [|discriminate].
    injection Hstep as <-.
    apply andb_prop in Hen as [_ Hen]. apply negb_true_iff in Hen.
    unfold saveDisabled in Hen. apply orb_false_elim in Hen as [Hnot _].
    assert (Hnil : requests s = []).
    { destruct (requests s); [reflexivity|].
      assert (isSaving s = true) by (apply Hsaving; discriminate). congruence. }
    repeat split; cbn; rewrite ?Hnil; cbn; try lia; try discriminate; trivial.
  - destruct (nth_error (requests s) i) as [image|] eqn:Hi; [|discriminate].
    rewrite POST_requestBody in Hstep. cbv zeta in Hstep.
    assert (Hnil : FaceDetection.remove_nth i (requests s) = []).
    { pose proof (remove_nth_length _ _ _ Hi).
      destruct (FaceDetection.remove_nth i (requests s)); [reflexivity|].
      cbn in *. lia. }
    destruct (writable _) eqn:Hw; [|destruct (partial _)];
      injection Hstep as <-;
      (repeat split; cbn; rewrite ?Hnil; cbn; try lia; try discriminate;
       try congruence).
    + intros name Hsaved. destruct arrives.
      * injection Hsaved as <-. eexists random, _. split; [reflexivity|].
        left. reflexivity.
      * destruct (Hname name Hsaved) as (r & content & Hr & Hc).
        exists r, content. split; [exact Hr|now right].
    + intros name Hsaved.
      destruct (Hname name) as (r & content & Hr & Hc);
        [now destruct arrives|].
      exists r, content. split; [exact Hr|now right].
    + intros name Hsaved. apply Hname. now destruct arrives.
  - destruct (nth_error (requests s) i) as [image|] eqn:Hi; [|discriminate].
    assert (Hnil : FaceDetection.remove_nth i (requests s) = []).
    { pose proof (remove_nth_length _ _ _ Hi).
      destruct (FaceDetection.remove_nth i (requests s)); [reflexivity|].
      cbn in *. lia. }
    injection Hstep as <-.
    repeat split; cbn; rewrite ?Hnil; cbn; try lia; try discriminate;
      try congruence. exact Hname.
  - destruct (reviewing s); [|discriminate]. injection Hstep as <-.
    repeat split; cbn; trivial; try apply Hsaving. discriminate.
Qed.

Lemma flow_run_consistent (events : list Event) (s s' : State) :
  consistent s -> run s events = Some s' -> consistent s'.
Proof.
  revert s. induction events as [|e events IH]; intros s Hs Hrun; cbn in Hrun.
  - now injection Hrun as <-.
  - destruct (step s e) as [s1|] eqn:Hstep; [|discriminate].
    exact (IH s1 (flow_step_consistent _ _ _ Hs Hstep) Hrun).
Qed.

End PhotoFlowFacts.

Import SaveImage DataUrl PhotoFlow.

(** X5: at most one save request is in flight at any time, [isSaving] is
    true exactly while one is, and while it is a click on the save button
    does nothing: the button is disabled. *)
Theorem one_save_in_flight cwd writable partial fs events s :
  PhotoFlow.run cwd writable partial (PhotoFlow.mount fs) events = Some s ->
  (List.length (requests s) <= 1)%nat
  /\ (isSaving s = true <-> requests s <> [])
  /\ (requests s <> [] -> PhotoFlow.step cwd writable partial s SavePhoto = None).
Proof.
  intros Hrun.
  destruct (flow_run_consistent cwd writable partial events _ _
              (flow_consistent_mount cwd fs) Hrun) as (Hone & Hsaving & _).
  split; [exact Hone|]. split; [exact Hsaving|].
  intros Hreq. apply Hsaving in Hreq. cbn. unfold saveDisabled. rewrite Hreq.
  now rewrite andb_false_r.
Qed.

Lemma one_save_in_flight_witness :
  exists s,
    PhotoFlow.run "/srv/app" (fun _ => true) (fun _ => None) (PhotoFlow.mount [])
      [CapturePhoto "data:image/png;base64,iVBORw0KGgo="; SavePhoto] = Some s
    /\ requests s = ["data:image/png;base64,iVBORw0KGgo="]
    /\ PhotoFlow.step "/srv/app" (fun _ => true) (fun _ => None) s SavePhoto = None.
Proof.
  eexists. split; [vm_compute; reflexivity|]. split; [reflexivity|].
  apply (one_save_in_flight "/srv/app" (fun _ => true) (fun _ => None) []
           [CapturePhoto "data:image/png;base64,iVBORw0KGgo="; SavePhoto]).
  - vm_compute. reflexivity.
  - discriminate.
Defined.

(** X6: whenever [savedFileName] is set it is a name the server made,
    the hexadecimal of some random bytes followed by [.png], and a file of
    that name is among the server's files. *)
Theorem saved_name_is_stored cwd writable partial fs events s name :
  PhotoFlow.run cwd writable partial (PhotoFlow.mount fs) events = Some s ->
  savedFileName s = Some name ->
  exists random content,
    name = toHex random ++ ".png"
    /\ In (join (publicPath cwd) name, content) (disk s).
Proof.
  intros Hrun Hname.
  destruct (flow_run_consistent cwd writable partial events _ _
              (flow_consistent_mount cwd fs) Hrun) as (_ & _ & Hstored).
  exact (Hstored name Hname).
Qed.

Lemma saved_name_is_stored_witness :
  exists random content,
    "2a2a.png" = toHex random ++ ".png"
    /\ In (join (publicPath "/srv/app") "2a2a.png", content)
         [("/srv/app/public/captured-photos/2a2a.png",
           [Byte.x89; Byte.x50; Byte.x4e; Byte.x47])].
Proof.
  apply (saved_name_is_stored "/srv/app" (fun _ => true) (fun _ => None) []
           [CapturePhoto "data:image/png;base64,iVBORw=="; SavePhoto;
            Served 0 [Byte.x2a; Byte.x2a] true]
           {| capturedImage := Some "data:image/png;base64,iVBORw==";
              isSaving := false; savedFileName := Some "2a2a.png";
              requests := [];
              disk := [("/srv/app/public/captured-photos/2a2a.png",
                        [Byte.x89; Byte.x50; Byte.x4e; Byte.x47])] |}).
  - vm_compute. reflexivity.
  - reflexivity.
Defined.

(** X7: capturing a frame, saving it and getting the server's answer
    leaves on the server, under the name that the component then shows,
    exactly the PNG file that the canvas encoded, provided the canvas has
    area and the write succeeds. *)
Theorem captured_photo_is_saved_intact cwd writable partial fs width height png random :
  width <> 0%Z -> height <> 0%Z ->
  writable (join (publicPath cwd) (toHex random ++ ".png")) = true ->
  PhotoFlow.run cwd writable partial (PhotoFlow.mount fs)
    [CapturePhoto (toDataURL width height png); SavePhoto; Served 0 random true]
  = Some {| capturedImage := Some (toDataURL width height png);
            isSaving := false;
            savedFileName := Some (toHex random ++ ".png");
            requests := [];
            disk := (join (publicPath cwd) (toHex random ++ ".png"), png) :: fs |}.
Proof.
  intros Hw Hh Hwr.
  pose proof (data_url_decodes width height png Hw Hh) as Hpng.
  assert (Hurl : (toDataURL width height png =? "")%string = false).
  { unfold toDataURL. apply Z.eqb_neq in Hw, Hh. now rewrite Hw, Hh. }
  cbn -[toDataURL POST String.eqb]. unfold reviewing. cbn -[toDataURL POST String.eqb].
  rewrite Hurl. cbn -[toDataURL POST String.eqb].
  rewrite POST_requestBody. cbv zeta. rewrite Hwr, Hpng. reflexivity.
Qed.

Lemma captured_photo_is_saved_intact_witness :
  PhotoFlow.run "/srv/app" (fun _ => true) (fun _ => None) (PhotoFlow.mount [])
    [CapturePhoto (toDataURL 640 480 [Byte.x89; Byte.x50; Byte.x4e; Byte.x47]);
     SavePhoto; Served 0 [Byte.x2a; Byte.x2a] true]
  = Some {| capturedImage :=
              Some (toDataURL 640 480 [Byte.x89; Byte.x50; Byte.x4e; Byte.x47]);
            isSaving := false;
            savedFileName := Some "2a2a.png";
            requests := [];
            disk := [("/srv/app/public/captured-photos/2a2a.png",
                      [Byte.x89; Byte.x50; Byte.x4e; Byte.x47])] |}.
Proof.
  apply (captured_photo_is_saved_intact "/srv/app" (fun _ => true) (fun _ => None) [] 640 480
           [Byte.x89; Byte.x50; Byte.x4e; Byte.x47] [Byte.x2a; Byte.x2a]).
  - discriminate.
  - discriminate.
  - reflexivity.
Defined.

(** ** The lifecycle of [FaceDetection], beyond its claims *)

Section LifecycleFacts.

Import Overlay FaceDetection Lifecycle.

Variable resizeResults : Detection -> Dimensions -> Box.
Variable measureText : string -> float.

Local Abbreviation step := (FaceDetection.step resizeResults measureText).
Local Abbreviation run := (FaceDetection.run resizeResults measureText).
Local Abbreviation render := (Overlay.render resizeResults measureText).

Ltac unfold_handlers :=
  unfold handleVideoPlay, setIsVideoPlaying_true, setModelsLoaded_true,
    detectionEffect, webcamEffect, cleanupDetection, cleanupModels,
    firstRenderStream, resume, requestAnimationFrame, detectExpressions,
    cancelAnimationFrame, stopTracks in *.

Ltac cases :=
  repeat (cbn; match goal with
               | |- context [match ?x with _ => _ end] => destruct x
               end); cbn.

(** What a frame does to the canvas: nothing, or the size of the video
    and the drawings of this frame alone. *)
Lemma render_canvas (cv : Canvas) (v : Video) (found : option Detection) :
  fst (render cv v found) = cv
  \/ (width (fst (render cv v found)) = videoWidth v
      /\ height (fst (render cv v found)) = videoHeight v
      /\ oneFrame (drawn (fst (render cv v found)))).
Proof.
  unfold Overlay.render. destruct found as [det|]; [|now left].
  destruct (context2d cv); [|now left]. right. cbn.
  destruct (dominantExpression (expressions det)); cbn; unfold oneFrame; cbn;
    repeat split; lia.
Qed.

Ltac tidy :=
  cbn in *; unfold oneFrame in *; cbn in *; rewrite ?length_app in *; cbn in *;
  intuition (auto; try lia; try discriminate; try congruence).

Lemma step_orderly (s s' : State) (e : Event) :
  consistent s -> orderly s -> step s e = Some s' -> orderly s'.
Proof.
  intros (_ & Hidle & _) (Hacq & Hcam & Hsrc & Hlive & Hdrawn & Hone) Hstep.
  unfold orderly, acquisitions in *.
  destruct e; cbn in Hstep.
  - (* ModelsSettled *)
    destruct s; cbn in *. destruct loading0; [|discriminate].
    injection Hstep as <-.
    destruct (tinyFaceDetector && faceExpressionNet); [|tidy].
    unfold setModelsLoaded_true. cbn.
    destruct mounted0; cbn; [|tidy].
    destruct modelsLoaded0; cbn; [tidy|].
    destruct (Hcam eq_refl) as [Hzero Hnone]. specialize (Hdrawn eq_refl).
    unfold_handlers. cases; tidy.
  - (* MediaSettled *)
    destruct s; cbn in *. destruct requestingMedia0 as [|n]; [discriminate|].
    assert (Hml : modelsLoaded0 = true).
    { destruct modelsLoaded0; [reflexivity|]. destruct (Hcam eq_refl). lia. }
    subst modelsLoaded0. destruct granted as [st|]; injection Hstep as <-; cbn; [|tidy].
    assert (HinA : forall st', Some st = Some st' -> In st' (liveTracks0 ++ [st])).
    { intros st' [= <-]. apply in_or_app. right. now left. }
    assert (HinB : forall st', stream0 = Some st' -> In st' (liveTracks0 ++ [st])).
    { intros st' H. apply in_or_app. left. now apply Hlive. }
    destruct mounted0; tidy.
  - (* VideoPlay *)
    destruct s; cbn in *. destruct mounted0; [|discriminate].
    injection Hstep as <-. unfold_handlers. cases; tidy.
  - (* InferenceSettled *)
    destruct (nth_error (inferences s) i) as [c|] eqn:Hi; [|discriminate].
    injection Hstep as <-.
    assert (Hboth : modelsLoaded s && isVideoPlaying s = true).
    { destruct (modelsLoaded s && isVideoPlaying s); [reflexivity|].
      destruct (Hidle eq_refl) as [Hnil _]. rewrite Hnil in Hi. now destruct i. }
    pose proof (render_canvas (canvas s) (video s) found) as Hr.
    unfold resume. destruct s; cbn in *.
    destruct (Overlay.render _ _ canvas0 video0 found) as [cv k]. cbn in Hr.
    assert (Hf : oneFrame (drawn cv)).
    { destruct Hr as [->|(Hw & Hh & Hf)]; [exact Hone|exact Hf]. }
    clear Hr.
    unfold_handlers. destruct k; cases; tidy.
  - (* InferenceFailed *)
    destruct (nth_error (inferences s) i); [|discriminate].
    injection Hstep as <-. destruct s; tidy.
  - (* AnimationFrame *)
    destruct (frames s) as [|[h c] rest] eqn:Hf; [discriminate|].
    injection Hstep as <-. destruct s; cbn in *. unfold_handlers.
    cases; tidy.
  - (* Unmount *)
    destruct (mounted s); [|discriminate]. injection Hstep as <-.
    destruct s; cbn in *. unfold_handlers. cases; tidy.
Qed.

Lemma orderly_mount (v : Video) : orderly (mount v).
Proof.
  unfold orderly, acquisitions, oneFrame. cbn.
  repeat split; try lia; try discriminate.
Qed.

Lemma run_orderly (events : list Event) (s s' : State) :
  consistent s -> orderly s -> run s events = Some s' -> orderly s'.
Proof.
  revert s. induction events as [|e events IH]; intros s Hc Ho Hrun; cbn in Hrun.
  - now injection Hrun as <-.
  - destruct (step s e) as [s1|] eqn:Hstep; [|discriminate].
    exact (IH s1 (step_consistent _ _ _ _ _ Hc Hstep)
             (step_orderly _ _ _ Hc Ho Hstep) Hrun).
Qed.


(** A halted loop stays halted: no callback of the loop can run, none is
    created, and only a [play] event still touches the canvas. *)
Lemma step_halted (s s' : State) (e : Event) :
  halted s -> step s e = Some s' ->
  halted s' /\ isLoopCallback e = false
  /\ (canvas s' = canvas s \/ e = VideoPlay).
Proof.
  intros (Hml & Hvp & Hinf & Hfr) Hstep. unfold halted.
  destruct s; cbn in *; subst. destruct e; cbn in Hstep.
  - destruct loading0; [|discriminate]. injection Hstep as <-.
    unfold_handlers. destruct mounted0; cases; tidy.
  - destruct requestingMedia0; [discriminate|].
    destruct granted; injection Hstep as <-; cases; tidy.
  - destruct mounted0; [|discriminate]. injection Hstep as <-.
    unfold_handlers. cases; tidy.
  - now destruct i.
  - now destruct i.
  - discriminate.
  - destruct mounted0; [|discriminate]. injection Hstep as <-.
    unfold_handlers. cases; tidy.
Qed.

Lemma run_halted (events : list Event) (s s' : State) :
  halted s -> run s events = Some s' ->
  halted s' /\ filter isLoopCallback events = [].
Proof.
  revert s. induction events as [|e events IH]; intros s Hs Hrun; cbn in Hrun.
  - injection Hrun as <-. now split.
  - destruct (step s e) as [s1|] eqn:Hstep; [|discriminate].
    destruct (step_halted _ _ _ Hs Hstep) as (H1 & He & _).
    destruct (IH s1 H1 Hrun) as [H' Hnone]. split; [exact H'|].
    cbn. now rewrite He.
Qed.

(** The continuation of an inference either requests the next frame or
    leaves the loop halted. *)
Lemma step_InferenceSettled (s s' : State) (i : nat) (found : option Detection) :
  consistent s -> step s (InferenceSettled i found) = Some s' ->
  match snd (render (canvas s) (video s) found) with
  | Scheduled => exists h c, frames s' = [(h, c)] /\ inferences s' = []
  | Returned | Threw => halted s'
  end.
Proof.
  intros (Hone & Hidle & Hinf & _) Hstep. cbn in Hstep.
  destruct (nth_error (inferences s) i) as [c|] eqn:Hi; [|discriminate].
  injection Hstep as <-.
  assert (Hboth : modelsLoaded s && isVideoPlaying s = true).
  { destruct (modelsLoaded s && isVideoPlaying s); [reflexivity|].
    destruct (Hidle eq_refl) as [Hnil _]. rewrite Hnil in Hi. now destruct i. }
  apply andb_prop in Hboth as [Hml Hvp].
  unfold resume, halted. destruct s; cbn in *. subst.
  destruct inferences0 as [|c0 [|]]; cbn in *; [now destruct i| |lia].
  destruct frames0; cbn in *; [|lia].
  destruct i as [|[|]]; cbn in Hi; try discriminate.
  destruct (Overlay.render _ _ canvas0 video0 found) as [cv []]; cbn;
    [|now repeat split ..].
  unfold_handlers. cases; eexists _, _; split; reflexivity.
Qed.

Lemma step_AnimationFrame (s s' : State) :
  consistent s -> mounted s = true -> step s AnimationFrame = Some s' ->
  exists c, inferences s' = [c] /\ frames s' = [].
Proof.
  intros (Hone & _ & _ & Hfr & _) Hm Hstep. cbn in Hstep.
  destruct (frames s) as [|[h c] rest] eqn:Hf; [discriminate|].
  injection Hstep as <-. destruct s; cbn in *. subst.
  destruct inferences0; cbn in *; [|lia]. destruct rest; cbn in *; [|lia].
  destruct (Hfr h c (or_introl eq_refl)) as (_ & Hsaw & _).
  unfold detectExpressions. cbn. rewrite Hsaw. cbn. now exists c.
Qed.

Lemma step_InferenceFailed (s s' : State) (i : nat) :
  consistent s -> step s (InferenceFailed i) = Some s' -> halted s'.
Proof.
  intros (Hone & Hidle & _) Hstep. cbn in Hstep.
  destruct (nth_error (inferences s) i) as [c|] eqn:Hi; [|discriminate].
  injection Hstep as <-.
  assert (Hboth : modelsLoaded s && isVideoPlaying s = true).
  { destruct (modelsLoaded s && isVideoPlaying s); [reflexivity|].
    destruct (Hidle eq_refl) as [Hnil _]. rewrite Hnil in Hi. now destruct i. }
  apply andb_prop in Hboth as [Hml Hvp].
  unfold halted. destruct s; cbn in *. subst.
  destruct inferences0 as [|c0 [|]]; cbn in *; [now destruct i| |lia].
  destruct frames0; cbn in *; [|lia].
  destruct i as [|[|]]; cbn in Hi; try discriminate. now repeat split.
Qed.

(** No step stops a track. *)
Lemma step_keeps_tracks (s s' : State) (e : Event) :
  step s e = Some s' -> forall st, In st (liveTracks s) -> In st (liveTracks s').
Proof.
  intros Hstep st Hst. destruct s; cbn in *. destruct e; cbn in Hstep.
  - destruct loading0; [|discriminate]. injection Hstep as <-.
    unfold_handlers. cases; exact Hst.
  - destruct requestingMedia0; [discriminate|].
    destruct granted; injection Hstep as <-; cases; trivial;
      apply in_or_app; now left.
  - destruct mounted0; [|discriminate]. injection Hstep as <-.
    unfold_handlers. cases; exact Hst.
  - destruct (nth_error inferences0 i); [|discriminate]. injection Hstep as <-.
    unfold_handlers. cbn. destruct (Overlay.render _ _ _ _ _) as [cv []];
      cases; exact Hst.
  - destruct (nth_error inferences0 i); [|discriminate].
    now injection Hstep as <-.
  - destruct frames0 as [|[h c] rest]; [discriminate|]. injection Hstep as <-.
    unfold_handlers. cases; exact Hst.
  - destruct mounted0; [|discriminate]. injection Hstep as <-.
    unfold_handlers. cases; exact Hst.
Qed.

(** Where the size of the canvas comes from, event by event. *)
Lemma step_canvas_size (s s' : State) (e : Event) :
  step s e = Some s' ->
  match e with
  | VideoPlay =>
      width (canvas s') = orElse (videoWidth (FaceDetection.video s)) 640
      /\ height (canvas s') = orElse (videoHeight (FaceDetection.video s)) 480
  | InferenceSettled _ (Some _) =>
      if context2d (canvas s)
      then width (canvas s') = videoWidth (FaceDetection.video s)
           /\ height (canvas s') = videoHeight (FaceDetection.video s)
      else canvas s' = canvas s
  | _ => width (canvas s') = width (canvas s)
         /\ height (canvas s') = height (canvas s)
  end.
Proof.
  intros Hstep. destruct e; cbn in Hstep.
  - destruct s; cbn in *. destruct loading0; [|discriminate].
    injection Hstep as <-. unfold_handlers.
    destruct (tinyFaceDetector && faceExpressionNet); [|now split].
    unfold setModelsLoaded_true. cbn. unfold_handlers. cases; now split.
  - destruct s; cbn in *. destruct requestingMedia0; [discriminate|].
    destruct granted; injection Hstep as <-; cases; now split.
  - destruct s; cbn in *. destruct mounted0; [|discriminate].
    injection Hstep as <-. unfold_handlers. cases; now split.
  - destruct (nth_error (inferences s) i) as [c|]; [|discriminate].
    injection Hstep as <-. unfold resume, Overlay.render. destruct s; cbn.
    destruct found as [det|]; cbn.
    + destruct canvas0 as [w h [|] d]; cbn; [|reflexivity].
      destruct (dominantExpression (expressions det)); cbn;
        unfold_handlers; cases; now split.
    + unfold_handlers. cases; now split.
  - destruct (nth_error (inferences s) i); [|discriminate].
    injection Hstep as <-. destruct s; now split.
  - destruct (frames s) as [|[h c] rest]; [discriminate|].
    injection Hstep as <-. destruct s; cbn. unfold_handlers. cases; now split.
  - destruct (mounted s); [|discriminate]. injection Hstep as <-.
    destruct s; cbn. unfold_handlers. cases; now split.
Qed.

End LifecycleFacts.

Import Overlay FaceDetection Lifecycle.

(** X8: [FaceDetection] asks for the camera at most once, and only after
    the models are loaded: the calls of [getUserMedia] in flight and the
    streams granted are never more than one, there is none while the
    models are not ready, and the stream the component holds is the one
    shown by the video element and the only live one. *)
Theorem camera_is_requested_once_after_the_models
  (resizeResults : Detection -> Dimensions -> Box) (measureText : string -> float)
  (video : Video) (events : list Event) (s : State) :
  run resizeResults measureText (mount video) events = Some s ->
  (requestingMedia s + List.length (liveTracks s) <= 1)%nat
  /\ (modelsLoaded s = false ->
      requestingMedia s = 0%nat /\ liveTracks s = [] /\ stream s = None)
  /\ stream s = srcObject s
  /\ (forall st, stream s = Some st -> liveTracks s = [st]).
Proof.
  intros Hrun.
  destruct (run_orderly resizeResults measureText events _ _
              (consistent_mount video) (orderly_mount video) Hrun)
    as (Hacq & Hcam & Hsrc & Hlive & _).
  unfold acquisitions in *. split; [exact Hacq|]. split; [|split; [exact Hsrc|]].
  - intros Hml. destruct (Hcam Hml) as [Hzero Hnone].
    destruct (liveTracks s); [|cbn in Hzero; lia]. repeat split; trivial. lia.
  - intros st Hst. apply Hlive in Hst.
    destruct (liveTracks s) as [|a [|b l]]; cbn in *; [tauto| |lia].
    destruct Hst as [->|[]]. reflexivity.
Qed.

Lemma camera_is_requested_once_after_the_models_witness :
  exists s,
    run (fun d _ => detection d) (fun _ => 100%float)
      (mount {| videoWidth := 640; videoHeight := 480 |})
      [VideoPlay; ModelsSettled true true; MediaSettled (Some 7%nat); VideoPlay]
    = Some s
    /\ stream s = Some 7%nat
    /\ (requestingMedia s + List.length (liveTracks s) <= 1)%nat
    /\ liveTracks s = [7%nat].
Proof.
  assert (H : exists s,
             run (fun d _ => detection d) (fun _ => 100%float)
               (mount {| videoWidth := 640; videoHeight := 480 |})
               [VideoPlay; ModelsSettled true true; MediaSettled (Some 7%nat);
                VideoPlay] = Some s
             /\ stream s = Some 7%nat).
  { eexists. split; [vm_compute; reflexivity|reflexivity]. }
  destruct H as (s & Hrun & Hst). exists s.
  destruct (camera_is_requested_once_after_the_models _ _ _ _ _ Hrun)
    as (Hacq & _ & _ & Hlive).
  split; [exact Hrun|]. split; [exact Hst|]. split; [exact Hacq|].
  exact (Hlive _ Hst).
Defined.

(** X9: the overlay is empty until the models are loaded and the video
    plays, and from then on it never holds more than the drawings of one
    frame, one box and the text stroked and filled: drawings of
    successive frames do not pile up. *)
Theorem overlay_holds_one_frame
  (resizeResults : Detection -> Dimensions -> Box) (measureText : string -> float)
  (video : Video) (events : list Event) (s : State) :
  run resizeResults measureText (mount video) events = Some s ->
  (modelsLoaded s && isVideoPlaying s = false -> drawn (canvas s) = [])
  /\ (List.length (filter isBox (drawn (canvas s))) <= 1)%nat
  /\ (List.length (filter isText (drawn (canvas s))) <= 2)%nat.
Proof.
  intros Hrun.
  destruct (run_orderly resizeResults measureText events _ _
              (consistent_mount video) (orderly_mount video) Hrun)
    as (_ & _ & _ & _ & Hdrawn & [Hbox Htext]).
  now repeat split.
Qed.

Lemma overlay_holds_one_frame_witness :
  exists s,
    run (fun d _ => detection d) (fun _ => 100%float)
      (mount {| videoWidth := 640; videoHeight := 480 |})
      [ModelsSettled true true; VideoPlay;
       InferenceSettled 0
         (Some {| detection := {| left := 10; top := 20;
                                  boxWidth := 30; boxHeight := 40 |};
                  expressions := [("happy", 0.75%float); ("sad", 0.25%float)] |});
       AnimationFrame;
       InferenceSettled 0
         (Some {| detection := {| left := 11; top := 21;
                                  boxWidth := 31; boxHeight := 41 |};
                  expressions := [("happy", 0.25%float); ("sad", 0.75%float)] |})]
    = Some s
    /\ (List.length (filter isBox (drawn (canvas s))) <= 1)%nat
    /\ (List.length (filter isText (drawn (canvas s))) <= 2)%nat.
Proof.
  assert (H : exists s,
             run (fun d _ => detection d) (fun _ => 100%float)
               (mount {| videoWidth := 640; videoHeight := 480 |})
               [ModelsSettled true true; VideoPlay;
                InferenceSettled 0
                  (Some {| detection := {| left := 10; top := 20;
                                           boxWidth := 30; boxHeight := 40 |};
                           expressions := [("happy", 0.75%float);
                                           ("sad", 0.25%float)] |});
                AnimationFrame;
                InferenceSettled 0
                  (Some {| detection := {| left := 11; top := 21;
                                           boxWidth := 31; boxHeight := 41 |};
                           expressions := [("happy", 0.25%float);
                                           ("sad", 0.75%float)] |})]
             = Some s).
  { eexists. vm_compute. reflexivity. }
  destruct H as (s & Hrun). exists s. split; [exact Hrun|].
  apply (overlay_holds_one_frame _ _ _ _ _ Hrun).
Defined.

(** X10: the overlay canvas is resized by two events only, each from
    the dimensions the video has when the event happens. [handleVideoPlay]
    gives it the size of the video, with 640 by 480 standing in for a
    dimension of 0; the continuation of an inference that found a face
    gives it exactly the size of the video, through [matchDimensions],
    provided the canvas has a 2d context; every other event, a frame
    without a face among them, keeps the width and the height it had. *)
Theorem overlay_is_resized_by_play_and_by_faces
  (resizeResults : Detection -> Dimensions -> Box) (measureText : string -> float)
  (s s' : State) (e : Event) :
  step resizeResults measureText s e = Some s' ->
  match e with
  | VideoPlay =>
      width (canvas s') = orElse (videoWidth (FaceDetection.video s)) 640
      /\ height (canvas s') = orElse (videoHeight (FaceDetection.video s)) 480
  | InferenceSettled _ (Some _) =>
      if context2d (canvas s)
      then width (canvas s') = videoWidth (FaceDetection.video s)
           /\ height (canvas s') = videoHeight (FaceDetection.video s)
      else canvas s' = canvas s
  | _ => width (canvas s') = width (canvas s)
         /\ height (canvas s') = height (canvas s)
  end.
Proof. apply step_canvas_size. Qed.

(** The video plays at 1280 by 720 and a frame with a face is drawn. *)
Lemma overlay_is_resized_by_play_and_by_faces_witness :
  exists s s',
    run (fun d _ => detection d) (fun _ => 100%float)
      (mount {| videoWidth := 1280; videoHeight := 720 |})
      [ModelsSettled true true; VideoPlay] = Some s
    /\ step (fun d _ => detection d) (fun _ => 100%float) s
         (InferenceSettled 0
            (Some {| detection := {| left := 10; top := 20;
                                     boxWidth := 30; boxHeight := 40 |};
                     expressions := [("happy", 0.9%float)] |})) = Some s'
    /\ width (canvas s') = 1280%Z /\ height (canvas s') = 720%Z.
Proof.
  assert (H : exists s s',
             run (fun d _ => detection d) (fun _ => 100%float)
               (mount {| videoWidth := 1280; videoHeight := 720 |})
               [ModelsSettled true true; VideoPlay] = Some s
             /\ step (fun d _ => detection d) (fun _ => 100%float) s
                  (InferenceSettled 0
                     (Some {| detection := {| left := 10; top := 20;
                                              boxWidth := 30; boxHeight := 40 |};
                              expressions := [("happy", 0.9%float)] |})) = Some s'
             /\ context2d (canvas s) = true
             /\ FaceDetection.video s = {| videoWidth := 1280; videoHeight := 720 |}).
  { eexists _, _. split; [vm_compute; reflexivity|].
    split; [vm_compute; reflexivity|]. split; reflexivity. }
  destruct H as (s & s' & Hrun & Hstep & Hctx & Hv).
  exists s, s'. split; [exact Hrun|]. split; [exact Hstep|].
  pose proof (overlay_is_resized_by_play_and_by_faces _ _ _ _ _ Hstep) as H.
  cbv beta iota in H. rewrite Hctx, Hv in H. exact H.
Defined.

(** X11: the loop keeps itself going while the view is mounted: the
    continuation of an inference that reaches the end of
    [detectExpressions], as it does when no face is found, leaves exactly
    one frame requested and no inference awaited, and the callback of a
    frame starts exactly one inference. *)
Theorem loop_goes_on
  (resizeResults : Detection -> Dimensions -> Box) (measureText : string -> float)
  (video : Video) (events : list Event) (s : State) :
  run resizeResults measureText (mount video) events = Some s ->
  (forall i found s',
      step resizeResults measureText s (InferenceSettled i found) = Some s' ->
      snd (render resizeResults measureText (canvas s) (FaceDetection.video s) found)
        = Scheduled ->
      exists h c, frames s' = [(h, c)] /\ inferences s' = [])
  /\ (forall cv v, snd (render resizeResults measureText cv v None) = Scheduled)
  /\ (forall s',
        mounted s = true ->
        step resizeResults measureText s AnimationFrame = Some s' ->
        exists c, inferences s' = [c] /\ frames s' = []).
Proof.
  intros Hrun.
  pose proof (run_consistent resizeResults measureText events _ _
                (consistent_mount video) Hrun) as Hs.
  split; [|split].
  - intros i found s' Hstep Hk.
    pose proof (step_InferenceSettled _ _ _ _ _ _ Hs Hstep) as H.
    now rewrite Hk in H.
  - reflexivity.
  - intros s' Hm Hstep. exact (step_AnimationFrame _ _ _ _ Hs Hm Hstep).
Qed.

Lemma loop_goes_on_witness :
  exists s s' h c,
    run (fun d _ => detection d) (fun _ => 100%float)
      (mount {| videoWidth := 640; videoHeight := 480 |})
      [ModelsSettled true true; VideoPlay] = Some s
    /\ step (fun d _ => detection d) (fun _ => 100%float) s
         (InferenceSettled 0 None) = Some s'
    /\ frames s' = [(h, c)] /\ inferences s' = [].
Proof.
  assert (H : exists s s',
             run (fun d _ => detection d) (fun _ => 100%float)
               (mount {| videoWidth := 640; videoHeight := 480 |})
               [ModelsSettled true true; VideoPlay] = Some s
             /\ step (fun d _ => detection d) (fun _ => 100%float) s
                  (InferenceSettled 0 None) = Some s').
  { eexists _, _. split; vm_compute; reflexivity. }
  destruct H as (s & s' & Hrun & Hstep).
  destruct (proj1 (loop_goes_on _ _ _ _ _ Hrun) 0%nat None s' Hstep eq_refl)
    as (h & c & Hf & Hi).
  exists s, s', h, c. exact (conj Hrun (conj Hstep (conj Hf Hi))).
Defined.

(** X12: one bad frame ends the loop for good. When the awaited
    inference rejects, when the canvas gives no 2D context, or when the
    reduction throws on an empty expression mapping, no frame is
    requested, and in no later state is an inference awaited or a frame
    pending: no callback of the loop ever runs again. *)
Theorem loop_ends_on_a_bad_frame
  (resizeResults : Detection -> Dimensions -> Box) (measureText : string -> float)
  (video : Video) (events later : list Event) (s s' s'' : State) (e : Event) :
  run resizeResults measureText (mount video) events = Some s ->
  step resizeResults measureText s e = Some s' ->
  (exists i, e = InferenceFailed i)
  \/ (exists i found,
        e = InferenceSettled i found
        /\ snd (render resizeResults measureText (canvas s)
                  (FaceDetection.video s) found) <> Scheduled) ->
  run resizeResults measureText s' later = Some s'' ->
  inferences s'' = [] /\ frames s'' = []
  /\ filter isLoopCallback later = [].
Proof.
  intros Hrun Hstep Hbad Hlater.
  pose proof (run_consistent resizeResults measureText events _ _
                (consistent_mount video) Hrun) as Hs.
  assert (Hh : halted s').
  { destruct Hbad as [[i ->]|(i & found & -> & Hk)].
    - exact (step_InferenceFailed _ _ _ _ _ Hs Hstep).
    - pose proof (step_InferenceSettled _ _ _ _ _ _ Hs Hstep) as H.
      destruct (snd _); [congruence|exact H ..]. }
  destruct (run_halted _ _ later s' s'' Hh Hlater) as [(_ & _ & Hi & Hf) Hnone].
  now repeat split.
Qed.

Lemma loop_ends_on_a_bad_frame_witness :
  exists s'',
    run (fun d _ => detection d) (fun _ => 100%float)
      (mount {| videoWidth := 640; videoHeight := 480 |})
      [ModelsSettled true true; VideoPlay;
       InferenceSettled 0
         (Some {| detection := {| left := 10; top := 20;
                                  boxWidth := 30; boxHeight := 40 |};
                  expressions := [] |});
       VideoPlay; MediaSettled None] = Some s''
    /\ inferences s'' = [] /\ frames s'' = [].
Proof.
  assert (H : exists s s' s'',
             run (fun d _ => detection d) (fun _ => 100%float)
               (mount {| videoWidth := 640; videoHeight := 480 |})
               [ModelsSettled true true; VideoPlay] = Some s
             /\ step (fun d _ => detection d) (fun _ => 100%float) s
                  (InferenceSettled 0
                     (Some {| detection := {| left := 10; top := 20;
                                              boxWidth := 30; boxHeight := 40 |};
                              expressions := [] |})) = Some s'
             /\ run (fun d _ => detection d) (fun _ => 100%float) s'
                  [VideoPlay; MediaSettled None] = Some s''
             /\ snd (render (fun d _ => detection d) (fun _ => 100%float)
                       (canvas s) (FaceDetection.video s)
                       (Some {| detection := {| left := 10; top := 20;
                                                boxWidth := 30; boxHeight := 40 |};
                                expressions := [] |})) = Threw
             /\ run (fun d _ => detection d) (fun _ => 100%float)
                  (mount {| videoWidth := 640; videoHeight := 480 |})
                  [ModelsSettled true true; VideoPlay;
                   InferenceSettled 0
                     (Some {| detection := {| left := 10; top := 20;
                                              boxWidth := 30; boxHeight := 40 |};
                              expressions := [] |});
                   VideoPlay; MediaSettled None] = Some s'').
  { eexists _, _, _. split; [vm_compute; reflexivity|].
    split; [vm_compute; reflexivity|]. split; [vm_compute; reflexivity|].
    split; vm_compute; reflexivity. }
  destruct H as (s & s' & s'' & Hrun & Hstep & Hlater & Hk & Hall).
  exists s''. split; [exact Hall|].
  assert (Hne : snd (render (fun d _ => detection d) (fun _ => 100%float)
                       (canvas s) (FaceDetection.video s)
                       (Some {| detection := {| left := 10; top := 20;
                                                boxWidth := 30; boxHeight := 40 |};
                                expressions := [] |})) <> Scheduled)
    by (rewrite Hk; discriminate).
  destruct (loop_ends_on_a_bad_frame _ _ _ _ _ _ _ _ _ Hrun Hstep
              (or_intror (ex_intro _ 0%nat (ex_intro _ _ (conj eq_refl Hne))))
              Hlater)
    as (Hi & Hf & _).
  exact (conj Hi Hf).
Defined.

(** X13: [FaceDetection] never stops a camera track: a stream that is
    live stays live through every later event, the unmount included. *)
Theorem FaceDetection_never_stops_a_track
  (resizeResults : Detection -> Dimensions -> Box) (measureText : string -> float)
  (events : list Event) (s s' : State) (st : MediaStream) :
  run resizeResults measureText s events = Some s' ->
  In st (liveTracks s) -> In st (liveTracks s').
Proof.
  revert s. induction events as [|e events IH]; intros s Hrun Hst; cbn in Hrun.
  - now injection Hrun as <-.
  - destruct (step resizeResults measureText s e) as [s1|] eqn:Hstep;
      [|discriminate].
    exact (IH s1 Hrun (step_keeps_tracks _ _ _ _ _ Hstep st Hst)).
Qed.

Lemma FaceDetection_never_stops_a_track_witness :
  exists s s',
    run (fun d _ => detection d) (fun _ => 100%float)
      (mount {| videoWidth := 640; videoHeight := 480 |})
      [ModelsSettled true true; MediaSettled (Some 7%nat)] = Some s
    /\ run (fun d _ => detection d) (fun _ => 100%float) s
         [VideoPlay; InferenceSettled 0 None; Unmount] = Some s'
    /\ In 7%nat (liveTracks s').
Proof.
  assert (H : exists s s',
             run (fun d _ => detection d) (fun _ => 100%float)
               (mount {| videoWidth := 640; videoHeight := 480 |})
               [ModelsSettled true true; MediaSettled (Some 7%nat)] = Some s
             /\ run (fun d _ => detection d) (fun _ => 100%float) s
                  [VideoPlay; InferenceSettled 0 None; Unmount] = Some s'
             /\ In 7%nat (liveTracks s)).
  { eexists _, _. split; [vm_compute; reflexivity|].
    split; [vm_compute; reflexivity|]. now left. }
  destruct H as (s & s' & Hrun & Hlater & Hin).
  exists s, s'. split; [exact Hrun|]. split; [exact Hlater|].
  exact (FaceDetection_never_stops_a_track _ _ _ _ _ _ Hlater Hin).
Defined.

(** ** The overlay and [WebcamCapture], beyond their claims *)

Section ReduceFacts.

Import Overlay.

Lemma fold_moreConfident_In (rest : list (string * float)) (a : string * float) :
  In (fold_left moreConfident rest a) (a :: rest).
Proof.
  revert a. induction rest as [|b rest IH]; intros a; [now left|].
  cbn [fold_left]. unfold moreConfident at 2.
  destruct (gt (snd a) (snd b)).
  - destruct (IH a) as [H|H]; [now left|right; now right].
  - right. apply IH.
Qed.

Lemma NaN_spec (x : float) : isNaN x = true -> Prim2SF x = S754_nan.
Proof.
  unfold isNaN. rewrite FloatAxioms.eqb_spec. unfold SFeqb, SFcompare.
  destruct (Prim2SF x) as [[]|[]| |[] m e]; try discriminate; try reflexivity;
    rewrite Z.compare_refl;
    change (PosDef.Pos.compare_cont Eq m m) with (Pos.compare m m);
    rewrite Pos.compare_refl; discriminate.
Qed.

Lemma gt_NaN (a c : float) : isNaN c = true -> gt a c = false.
Proof.
  intros H. unfold gt. rewrite FloatAxioms.ltb_spec, (NaN_spec c H). reflexivity.
Qed.

End ReduceFacts.

Import Overlay.

(** X14: the reduction throws exactly on the empty mapping, and
    otherwise returns one of the entries of the mapping, NaN confidences
    or not: the label shown is always one of the labels given. *)
Theorem dominant_is_an_entry (expressions : list (string * float)) :
  (dominantExpression expressions = Throw <-> expressions = [])
  /\ (forall d, dominantExpression expressions = Ok d -> In d expressions).
Proof.
  unfold dominantExpression, reduce. destruct expressions as [|a rest].
  - split; [tauto|discriminate].
  - split; [split; discriminate|]. intros d [= <-]. apply fold_moreConfident_In.
Qed.

(** X15: a NaN confidence in the last entry wins over every entry
    before it, because [a[1] > b[1]] is false against NaN, and it is
    shown as [NaN%]. *)
Theorem NaN_in_last_place_wins
  (before : list (string * float)) (label : string) (confidence : float) :
  isNaN confidence = true ->
  dominantExpression (before ++ [(label, confidence)])%list = Ok (label, confidence)
  /\ expressionText (label, confidence) = label ++ ": NaN%".
Proof.
  intros Hnan. split.
  - unfold dominantExpression, reduce. destruct before as [|a rest]; [reflexivity|].
    cbn [app]. rewrite fold_left_app. cbn [fold_left]. unfold moreConfident at 1.
    cbn [snd]. now rewrite (gt_NaN _ _ Hnan).
  - unfold expressionText, roundedToString. cbn [fst snd].
    rewrite FloatAxioms.mul_spec, (NaN_spec _ Hnan). reflexivity.
Qed.

Lemma NaN_in_last_place_wins_witness :
  dominantExpression [("happy", 0.75%float); ("sad", nan)] = Ok ("sad", nan)
  /\ expressionText ("sad", nan) = "sad: NaN%".
Proof.
  apply (NaN_in_last_place_wins [("happy", 0.75%float)] "sad" nan). reflexivity.
Defined.

Section PatientFacts.

Import WebcamCapture PatientUse.

Lemma patient_step_tidy (s s' : State) (e : Event) :
  tidy s -> PatientUse.step s e = Some s' -> tidy s'.
Proof.
  intros (Hlive & Hheld & Hone & Hreq) Hstep. unfold tidy in *.
  destruct s as [st ci sf mo so lt rq]. cbn in *. destruct e; cbn in Hstep.
  - (* MediaSettled *)
    destruct rq as [|n]; [discriminate|]. assert (n = 0%nat) by lia. subst n.
    destruct (Hreq eq_refl) as [-> Hrev]. unfold hasVideo in Hstep. cbn in Hstep.
    destruct granted as [g|]; injection Hstep as <-; cbn.
    + destruct mo; cbn.
      * rewrite (Hrev eq_refl). cbn.
        split; [lia|]. split; [intros _ st' [<-|[]]; reflexivity|].
        split; [lia|discriminate].
      * split; [lia|]. split; [discriminate|]. split; [lia|discriminate].
    + split; [lia|]. split; [intros _ st' []|]. split; [lia|discriminate].
  - (* CapturePhoto *)
    destruct rq; [|discriminate]. cbn in Hstep.
    destruct (hasVideo _); [|discriminate]. injection Hstep as <-. cbn.
    split; [exact Hlive|]. split; [exact Hheld|]. split; [lia|discriminate].
  - (* Retake *)
    destruct rq; [|discriminate]. cbn in Hstep.
    destruct (mo && _) eqn:Hen; [|discriminate]. injection Hstep as <-.
    apply andb_prop in Hen as [-> _]. unfold startVideo. cbn.
    assert (Hgone : match st with
                    | Some held => filter (fun st' => negb (st' =? held)%nat) lt
                    | None => lt
                    end = []).
    { destruct lt as [|a [|b lt]]; cbn in *; [now destruct st| |lia].
      rewrite (Hheld eq_refl a (or_introl eq_refl)). cbn.
      now rewrite Nat.eqb_refl. }
    destruct st as [held|]; cbn in *; rewrite Hgone; cbn;
      (split; [lia|]); (split; [intros _ ? []|]); (split; [lia|]);
      intros _; split; reflexivity.
  - (* Unmount *)
    destruct mo; [|discriminate]. injection Hstep as <-. cbn.
    split; [exact Hlive|]. split; [discriminate|]. split; [exact Hone|].
    intros H. destruct (Hreq H) as [-> _]. split; [reflexivity|discriminate].
Qed.

Lemma patient_mount_tidy : tidy mount.
Proof.
  unfold tidy. cbn. split; [lia|]. split; [intros _ st []|].
  split; [lia|]. intros _. split; reflexivity.
Qed.

Lemma patient_run_tidy (events : list Event) (s s' : State) :
  tidy s -> PatientUse.run s events = Some s' -> tidy s'.
Proof.
  revert s. induction events as [|e events IH]; intros s Hs Hrun; cbn in Hrun.
  - now injection Hrun as <-.
  - destruct (PatientUse.step s e) as [s1|] eqn:Hstep; [|discriminate].
    exact (IH s1 (patient_step_tidy _ _ _ Hs Hstep) Hrun).
Qed.

(** A run of the patient user is a run of the component. *)
Lemma patient_run_is_a_run (events : list Event) (s s' : State) :
  PatientUse.run s events = Some s' -> WebcamCapture.run s events = Some s'.
Proof.
  revert s. induction events as [|e events IH]; intros s Hrun; cbn in *;
    [exact Hrun|].
  destruct (PatientUse.step s e) as [s1|] eqn:Hstep; [|discriminate].
  assert (H : WebcamCapture.step s e = Some s1).
  { unfold PatientUse.step in Hstep.
    destruct e; try exact Hstep;
      destruct (requestingMedia s); (exact Hstep || discriminate Hstep). }
  rewrite H. now apply IH.
Qed.

End PatientFacts.

(** X16: through any number of captures and retakes, [WebcamCapture]
    has at most one live camera stream, and while it is mounted that is
    the stream it holds, if the buttons are clicked only when no camera
    request is pending. *)
Theorem retake_cycles_keep_one_stream
  (events : list WebcamCapture.Event) (s : WebcamCapture.State) :
  PatientUse.run WebcamCapture.mount events = Some s ->
  WebcamCapture.run WebcamCapture.mount events = Some s
  /\ (List.length (WebcamCapture.liveTracks s) <= 1)%nat
  /\ (WebcamCapture.mounted s = true ->
      forall st, In st (WebcamCapture.liveTracks s) ->
                 WebcamCapture.stream s = Some st).
Proof.
  intros Hrun. split; [now apply patient_run_is_a_run|].
  destruct (patient_run_tidy events _ _ patient_mount_tidy Hrun)
    as (Hlive & Hheld & _).
  now split.
Qed.

Lemma retake_cycles_keep_one_stream_witness :
  exists s,
    WebcamCapture.run WebcamCapture.mount
      [WebcamCapture.MediaSettled (Some 1%nat);
       WebcamCapture.CapturePhoto "data:image/png;base64,iVBORw==";
       WebcamCapture.Retake;
       WebcamCapture.MediaSettled (Some 2%nat);
       WebcamCapture.CapturePhoto "data:image/png;base64,iVBORw==";
       WebcamCapture.Retake;
       WebcamCapture.MediaSettled (Some 3%nat)] = Some s
    /\ WebcamCapture.liveTracks s = [3%nat]
    /\ (List.length (WebcamCapture.liveTracks s) <= 1)%nat.
Proof.
  assert (H : exists s,
             PatientUse.run WebcamCapture.mount
               [WebcamCapture.MediaSettled (Some 1%nat);
                WebcamCapture.CapturePhoto "data:image/png;base64,iVBORw==";
                WebcamCapture.Retake;
                WebcamCapture.MediaSettled (Some 2%nat);
                WebcamCapture.CapturePhoto "data:image/png;base64,iVBORw==";
                WebcamCapture.Retake;
                WebcamCapture.MediaSettled (Some 3%nat)] = Some s
             /\ WebcamCapture.liveTracks s = [3%nat]).
  { eexists. split; [vm_compute; reflexivity|reflexivity]. }
  destruct H as (s & Hrun & Hlive). exists s.
  destruct (retake_cycles_keep_one_stream _ _ Hrun) as (Hr & Hone & _).
  exact (conj Hr (conj Hlive Hone)).
Defined.

(** X17: a click on [Retake Photo] discards the photo and the saved
    name, stops the tracks of the stream the component holds and of no
    other stream, and asks for the camera once. *)
Theorem retake_stops_the_held_stream (s s1 : WebcamCapture.State) :
  WebcamCapture.step s WebcamCapture.Retake = Some s1 ->
  WebcamCapture.capturedImage s1 = None
  /\ WebcamCapture.savedFileName s1 = None
  /\ WebcamCapture.requestingMedia s1 = S (WebcamCapture.requestingMedia s)
  /\ (forall st, In st (WebcamCapture.liveTracks s1) <->
                 In st (WebcamCapture.liveTracks s)
                 /\ WebcamCapture.stream s <> Some st).
Proof.
  cbn. destruct (_ && _); [|discriminate]. intros [= <-].
  unfold WebcamCapture.startVideo. cbn.
  destruct (WebcamCapture.stream s) as [held|]; cbn;
    (split; [reflexivity|]); (split; [reflexivity|]); (split; [reflexivity|]);
    intros st.
  - rewrite filter_In, negb_true_iff, Nat.eqb_neq.
    split; intros [Hin Hne]; (split; [exact Hin|congruence]).
  - split; [intros Hin; split; [exact Hin|discriminate]|now intros [Hin _]].
Qed.

Lemma retake_stops_the_held_stream_witness :
  exists s1,
    WebcamCapture.step
      {| WebcamCapture.stream := Some 1%nat;
         WebcamCapture.capturedImage := Some "data:image/png;base64,iVBORw==";
         WebcamCapture.savedFileName := Some "2a2a.png";
         WebcamCapture.mounted := true;
         WebcamCapture.srcObject := Some 1%nat;
         WebcamCapture.liveTracks := [1%nat];
         WebcamCapture.requestingMedia := 0 |}
      WebcamCapture.Retake = Some s1
    /\ WebcamCapture.capturedImage s1 = None
    /\ WebcamCapture.savedFileName s1 = None
    /\ WebcamCapture.requestingMedia s1 = 1%nat.
Proof.
  eexists. split; [reflexivity|].
  destruct (retake_stops_the_held_stream
              {| WebcamCapture.stream := Some 1%nat;
                 WebcamCapture.capturedImage := Some "data:image/png;base64,iVBORw==";
                 WebcamCapture.savedFileName := Some "2a2a.png";
                 WebcamCapture.mounted := true;
                 WebcamCapture.srcObject := Some 1%nat;
                 WebcamCapture.liveTracks := [1%nat];
                 WebcamCapture.requestingMedia := 0 |} _ eq_refl)
    as (Hc & Hs & Hr & _).
  exact (conj Hc (conj Hs Hr)).
Defined.

Import SaveImage DataUrl PhotoFlow.

(** X18: a save that does not succeed can be tried again. When the
    server cannot write the file, the response is lost or the server is
    not reached, [isSaving] is false again and [savedFileName] is as
    before; a request that did not reach the server leaves its files
    as they were, and no failure removes one of them; and with the
    photo still shown and no saved name the save button works again. *)
Theorem failed_save_can_be_retried cwd writable partial fs events s e s' :
  PhotoFlow.run cwd writable partial (PhotoFlow.mount fs) events = Some s ->
  PhotoFlow.step cwd writable partial s e = Some s' ->
  (exists i, e = Unreachable i)
  \/ (exists i random, e = Served i random false)
  \/ (exists i random arrives,
        e = Served i random arrives
        /\ writable (join (publicPath cwd) (toHex random ++ ".png")) = false) ->
  isSaving s' = false
  /\ savedFileName s' = savedFileName s
  /\ ((exists i, e = Unreachable i) -> disk s' = disk s)
  /\ (forall f, In f (disk s) -> In f (disk s'))
  /\ (reviewing s' = true -> savedFileName s' = None ->
      exists s2, PhotoFlow.step cwd writable partial s' SavePhoto = Some s2
                 /\ isSaving s2 = true).
Proof.
  intros Hrun Hstep Hfail.
  assert (Hs' : isSaving s' = false /\ savedFileName s' = savedFileName s
                /\ ((exists i, e = Unreachable i) -> disk s' = disk s)).
  { destruct Hfail as [[i ->]|[(i & random & ->)|(i & random & arrives & -> & Hw)]];
      cbn in Hstep; destruct (nth_error (requests s) i); try discriminate.
    - injection Hstep as <-. now repeat split.
    - rewrite POST_requestBody in Hstep. cbv zeta in Hstep.
      destruct (writable _); [|destruct (partial _)]; injection Hstep as <-; cbn;
        (split; [reflexivity|]); (split; [reflexivity|]);
        intros [? [=]].
    - rewrite POST_requestBody in Hstep. cbv zeta in Hstep. rewrite Hw in Hstep.
      destruct (partial _); injection Hstep as <-; cbn;
        (split; [reflexivity|]); (split; [now destruct arrives|]);
        intros [? [=]]. }
  destruct Hs' as (Hsaving & Hname & Hdisk).
  split; [exact Hsaving|]. split; [exact Hname|]. split; [exact Hdisk|].
  split; [exact (step_disk_grows _ _ _ _ _ _ Hstep)|].
  intros Hrev Hnone. cbn. unfold saveDisabled. rewrite Hrev, Hsaving, Hnone. cbn.
  unfold reviewing in Hrev. destruct (capturedImage s'); [|discriminate].
  eexists. split; reflexivity.
Qed.

(** The write is rejected after the file was opened: an empty file is
    left under the random name, and the photo can be saved again. *)
Lemma failed_save_can_be_retried_witness :
  exists s s' s2,
    PhotoFlow.run "/srv/app" (fun _ => false) (fun _ => Some 0%nat)
      (PhotoFlow.mount [])
      [CapturePhoto "data:image/png;base64,iVBORw=="; SavePhoto] = Some s
    /\ PhotoFlow.step "/srv/app" (fun _ => false) (fun _ => Some 0%nat) s
         (Served 0 [Byte.x2a; Byte.x2a] true) = Some s'
    /\ disk s' = [("/srv/app/public/captured-photos/2a2a.png", [])]
    /\ isSaving s' = false
    /\ PhotoFlow.step "/srv/app" (fun _ => false) (fun _ => Some 0%nat) s'
         SavePhoto = Some s2
    /\ isSaving s2 = true.
Proof.
  assert (H : exists s s',
             PhotoFlow.run "/srv/app" (fun _ => false) (fun _ => Some 0%nat)
               (PhotoFlow.mount [])
               [CapturePhoto "data:image/png;base64,iVBORw=="; SavePhoto] = Some s
             /\ PhotoFlow.step "/srv/app" (fun _ => false) (fun _ => Some 0%nat) s
                  (Served 0 [Byte.x2a; Byte.x2a] true) = Some s'
             /\ disk s' = [("/srv/app/public/captured-photos/2a2a.png", [])]
             /\ reviewing s' = true /\ savedFileName s' = None).
  { eexists _, _. split; [vm_compute; reflexivity|].
    split; [vm_compute; reflexivity|]. repeat split. }
  destruct H as (s & s' & Hrun & Hstep & Hdisk & Hrev & Hnone).
  destruct (failed_save_can_be_retried _ _ _ _ _ _ _ _ Hrun Hstep
              (or_intror (or_intror
                 (ex_intro _ 0%nat (ex_intro _ [Byte.x2a; Byte.x2a]
                    (ex_intro _ true (conj eq_refl eq_refl)))))))
    as (Hsaving & _ & _ & _ & Hretry).
  destruct (Hretry Hrev Hnone) as (s2 & Hs2 & Hsaving2).
  exists s, s', s2. split; [exact Hrun|]. split; [exact Hstep|].
  split; [exact Hdisk|]. split; [exact Hsaving|]. exact (conj Hs2 Hsaving2).
Defined.

(** X19: a frame captured from a canvas without area, which is what
    [capturePhoto] makes when the video has no dimensions yet, is saved
    all the same: its data URL [data:,] matches no prefix, so the server
    decodes the whole string and writes the three bytes that [data]
    stands for, and the component shows the file as saved. *)
Theorem empty_capture_is_saved_as_three_bytes
  cwd writable partial fs width height png random :
  width = 0%Z \/ height = 0%Z ->
  writable (join (publicPath cwd) (toHex random ++ ".png")) = true ->
  PhotoFlow.run cwd writable partial (PhotoFlow.mount fs)
    [CapturePhoto (toDataURL width height png); SavePhoto; Served 0 random true]
  = Some {| capturedImage := Some "data:,";
            isSaving := false;
            savedFileName := Some (toHex random ++ ".png");
            requests := [];
            disk := (join (publicPath cwd) (toHex random ++ ".png"),
                     [Byte.x75; Byte.xab; Byte.x5a]) :: fs |}.
Proof.
  intros Hzero Hwr.
  assert (Hurl : toDataURL width height png = "data:,").
  { unfold toDataURL. destruct Hzero as [-> | ->]; [reflexivity|].
    now rewrite orb_true_r. }
  rewrite Hurl. cbn -[POST]. rewrite POST_requestBody. cbv zeta.
  rewrite Hwr. reflexivity.
Qed.

Lemma empty_capture_is_saved_as_three_bytes_witness :
  PhotoFlow.run "/srv/app" (fun _ => true) (fun _ => None) (PhotoFlow.mount [])
    [CapturePhoto (toDataURL 0 0 []); SavePhoto;
     Served 0 [Byte.x2a; Byte.x2a] true]
  = Some {| capturedImage := Some "data:,";
            isSaving := false;
            savedFileName := Some "2a2a.png";
            requests := [];
            disk := [("/srv/app/public/captured-photos/2a2a.png",
                      [Byte.x75; Byte.xab; Byte.x5a])] |}.
Proof.
  apply (empty_capture_is_saved_as_three_bytes "/srv/app" (fun _ => true) (fun _ => None) []
           0 0 [] [Byte.x2a; Byte.x2a]).
  - now left.
  - reflexivity.
Defined.
